(** * The shopping cart store of the storefront (src/context/CartContext.tsx)

    A shallow embedding of the cart context provider: the line-item
    collection and its updaters, the derived totals, the two storage
    effects (hydration on mount, persistence after every change) and the
    [useCart] accessor.

    Conventions of the embedding.
    - A TypeScript [number] is an IEEE 754 binary64 value ([double]) in
      the JSON values, in the texts JSON reads and writes, and in the
      provider as it runs ([Module Js]).  The typed view of the provider
      (the updaters on [CartItem] records) takes prices and quantities that
      are integers ([Z]) with exact arithmetic, which is what the doubles
      do on integers up to 2^53.
    - A [string] is a sequence of code units below 256.
    - A state updater [setCartItems(prev => e)] is the function
      [prev |-> e] on [list CartItem]; the store-level operations apply it
      and then run the persistence effect, as React does after a commit.
    - An exception is a value of the [completion] type; [try]/[catch] is a
      match on it.
    - [JSON.parse] and what depends on it return an [option]: [None] says
      that the text is outside the model, not that the code fails. *)

From Stdlib Require Import ZArith String Ascii List Lia SpecFloat.
From Stdlib Require Import DecimalFacts DecimalPos DecimalN.
From stdpp Require Import base list strings gmap.

Import ListNotations.
Local Open Scope Z_scope.
Local Open Scope string_scope.

Scheme All for list.
Scheme All for prod.

(** ** Numbers

    A JavaScript number is an IEEE 754 binary64 value, here a [spec_float]
    of the Standard Library at precision 53 and maximal exponent 1024:
    signed zeros, signed infinities, one NaN, and finite values
    [m * 2^e].  Sums and products are the correctly rounded ones of
    [SpecFloat]. *)

Definition double : Type := spec_float.

Definition double_add : double -> double -> double := SFadd 53 1024.

Definition double_mul : double -> double -> double := SFmul 53 1024.

Definition is_NaN (x : double) : bool :=
  match x with S754_nan => true | _ => false end.

Definition is_finite (x : double) : bool :=
  match x with S754_zero _ | S754_finite _ _ _ => true | _ => false end.

(** Two numbers are the same value ([Object.is], NaN apart). *)
Definition same_double (x y : double) : bool :=
  match x, y with
  | S754_zero s, S754_zero s' => Bool.eqb s s'
  | S754_infinity s, S754_infinity s' => Bool.eqb s s'
  | S754_nan, S754_nan => true
  | S754_finite s m e, S754_finite s' m' e' => Bool.eqb s s' && Pos.eqb m m' && Z.eqb e e'
  | _, _ => false
  end.

(** [Math.max(a, b)]: NaN if either is, [+0] above [-0]. *)
Definition Math_max (a b : double) : double :=
  if is_NaN a || is_NaN b then S754_nan
  else match a, b with
       | S754_zero true, S754_zero false => b
       | _, _ => if SFltb a b then b else a
       end.

(** The integer [z] as a number: the nearest double, ties to even. *)
Definition double_of_Z (z : Z) : double := binary_normalize 53 1024 z 0 false.

(** The integer that a number is, if it is one; [-0] is none. *)
Definition double_to_Z (x : double) : option Z :=
  match x with
  | S754_zero false => Some 0
  | S754_finite s m e =>
      if Z.leb 0 e then Some (cond_Zopp s (Z.pos m * 2 ^ e))
      else if Z.eqb (Z.pos m mod 2 ^ (- e)) 0 then Some (cond_Zopp s (Z.pos m / 2 ^ (- e)))
      else None
  | _ => None
  end.

(** The number that a decimal literal denotes: [m * 10^e10], negated if
    [negative], rounded to the nearest double, ties to even. *)
Definition double_of_decimal (negative : bool) (m : N) (e10 : Z) : double :=
  match m with
  | N0 => S754_zero negative
  | Npos p =>
      if Z.leb 0 e10
      then binary_normalize 53 1024 (cond_Zopp negative (Z.pos p * 10 ^ e10)) 0 negative
      else
        let '(q, e, l) := SFdiv_core_binary 53 1024 (Z.pos p) 0 (10 ^ (- e10)) 0 in
        binary_round_aux 53 1024 negative q e l
  end.

(** ** JavaScript values that JSON can carry *)

Inductive value : Type :=
| JNull
| JBool (b : bool)
| JNumber (x : double)
| JString (s : string)
| JArray (elements : list value)
| JObject (properties : list (string * value)).

(** [Array.isArray] *)
Definition isArray (v : value) : bool :=
  match v with JArray _ => true | _ => false end.

(** ** [JSON.stringify]

    Texts are handled as lists of characters.  The double quote and the
    backslash are named, the other characters are written as literals. *)

Local Open Scope char_scope.

Definition dquote : ascii := ascii_of_N 34.
Definition backslash : ascii := ascii_of_N 92.

Definition chars (s : string) : list ascii := list_ascii_of_string s.

(** The decimal digits of a [Decimal.uint], most significant first. *)
Fixpoint digits (u : Decimal.uint) : list ascii :=
  match u with
  | Decimal.Nil => []
  | Decimal.D0 u => "0" :: digits u
  | Decimal.D1 u => "1" :: digits u
  | Decimal.D2 u => "2" :: digits u
  | Decimal.D3 u => "3" :: digits u
  | Decimal.D4 u => "4" :: digits u
  | Decimal.D5 u => "5" :: digits u
  | Decimal.D6 u => "6" :: digits u
  | Decimal.D7 u => "7" :: digits u
  | Decimal.D8 u => "8" :: digits u
  | Decimal.D9 u => "9" :: digits u
  end.

(** [Number::toString] on an integer: no sign for zero, no leading zero. *)
Definition number_chars (n : Z) : list ascii :=
  match n with
  | Z0 => ["0"]
  | Zpos p => digits (Pos.to_uint p)
  | Zneg p => "-" :: digits (Pos.to_uint p)
  end.

(** *** [Number::toString]

    For a finite number other than zero the digits are those of the
    integers [s] and [n] with the fewest digits [k] in [s] such that
    [s * 10^(n-k)] denotes the number, the closest to it if there is a
    choice.  [decimal_position num den] is the [n] with
    [10^(n-1) <= num/den < 10^n]. *)

Fixpoint scale_up (fuel : nat) (num den n : Z) : Z :=
  match fuel with
  | O => n
  | S fuel => if Z.leb den num then n else scale_up fuel (num * 10) den (n - 1)
  end.

Definition decimal_digits (z : Z) : Z := Z.of_nat (Decimal.nb_digits (N.to_uint (Z.to_N z))).

Definition decimal_position (num den : Z) : Z :=
  if Z.leb den num then decimal_digits (num / den)
  else scale_up 400 (num * 10) den 0.

(** The candidates with [k] digits: the two integers around
    [num/den * 10^(k-n)], the closer one first, those kept that denote the
    number. *)
Definition candidates (x : double) (num den n k : Z) : list Z :=
  let shift := k - n in
  let scaled_num := if Z.leb 0 shift then num * 10 ^ shift else num in
  let scaled_den := if Z.leb 0 shift then den else den * 10 ^ (- shift) in
  let low := scaled_num / scaled_den in
  let rest := scaled_num mod scaled_den in
  let ordered :=
    if Z.eqb rest 0 then [low]
    else match Z.compare (2 * rest) scaled_den with
         | Lt => [low; low + 1]
         | Gt => [low + 1; low]
         | Eq => if Z.even low then [low; low + 1] else [low + 1; low]
         end in
  List.filter (fun s => same_double (double_of_decimal false (Z.to_N s) (n - k)) x) ordered.

Fixpoint shortest (x : double) (num den n : Z) (ks : list Z) : Z * Z :=
  match ks with
  | [] =>
      let shift := 17 - n in
      let scaled_num := if Z.leb 0 shift then num * 10 ^ shift else num in
      let scaled_den := if Z.leb 0 shift then den else den * 10 ^ (- shift) in
      ((2 * scaled_num + scaled_den) / (2 * scaled_den), 17)
  | k :: ks =>
      match candidates x num den n k with
      | s :: _ => (s, k)
      | [] => shortest x num den n ks
      end
  end.

Fixpoint strip_zeros (fuel : nat) (s : Z) : Z :=
  match fuel with
  | O => s
  | S fuel => if Z.eqb (s mod 10) 0 then strip_zeros fuel (s / 10) else s
  end.

(** The digits [s] and the position [n] of the positive number
    [m * 2^e]. *)
Definition shortest_decimal (m : positive) (e : Z) : Z * Z :=
  let num := if Z.leb 0 e then Z.pos m * 2 ^ e else Z.pos m in
  let den := if Z.leb 0 e then 1 else 2 ^ (- e) in
  let n := decimal_position num den in
  let '(s, k) := shortest (S754_finite false m e) num den n
                          [1; 2; 3; 4; 5; 6; 7; 8; 9; 10; 11; 12; 13; 14; 15; 16] in
  (strip_zeros 17 s, n + (decimal_digits s - k)).

Definition decimal_chars (s : Z) : list ascii := digits (N.to_uint (Z.to_N s)).

(** The digits [ds] of [s] laid out for the position [n]: plain up to 21
    integer digits, with a point, with leading zeros down to 10^-7, in
    exponent form otherwise. *)
Definition format_decimal (ds : list ascii) (n : Z) : list ascii :=
  let k := Z.of_nat (length ds) in
  if Z.leb k n && Z.leb n 21 then ds ++ repeat "0" (Z.to_nat (n - k))
  else if Z.ltb 0 n && Z.leb n 21
  then take (Z.to_nat n) ds ++ "." :: drop (Z.to_nat n) ds
  else if Z.ltb (-6) n && Z.leb n 0
  then "0" :: "." :: repeat "0" (Z.to_nat (- n)) ++ ds
  else
    let e := n - 1 in
    let exponent := "e" :: (if Z.ltb e 0 then "-" else "+") :: decimal_chars (Z.abs e) in
    match ds with
    | [] => []
    | [d] => d :: exponent
    | d :: rest => d :: "." :: rest ++ exponent
    end.

(** [Number::toString] *)
Definition double_chars (x : double) : list ascii :=
  match x with
  | S754_nan => chars "NaN"
  | S754_infinity s => (if s then ["-"] else []) ++ chars "Infinity"
  | S754_zero _ => ["0"]
  | S754_finite s m e =>
      let '(d, n) := shortest_decimal m e in
      (if s then ["-"] else []) ++ format_decimal (decimal_chars d) n
  end.

Definition hex_digit (n : N) : ascii :=
  nth (N.to_nat n) (chars "0123456789abcdef") "0".

(** [QuoteJSONString], one code unit: the two-character escapes, [\u00xx]
    for the other control characters, the character itself otherwise. *)
Definition quote_char (c : ascii) : list ascii :=
  if Ascii.eqb c dquote then [backslash; dquote]
  else if Ascii.eqb c backslash then [backslash; backslash]
  else if Ascii.eqb c (ascii_of_N 8) then [backslash; "b"]
  else if Ascii.eqb c (ascii_of_N 12) then [backslash; "f"]
  else if Ascii.eqb c (ascii_of_N 10) then [backslash; "n"]
  else if Ascii.eqb c (ascii_of_N 13) then [backslash; "r"]
  else if Ascii.eqb c (ascii_of_N 9) then [backslash; "t"]
  else if N.ltb (N_of_ascii c) 32
       then [backslash; "u"; "0"; "0";
             hex_digit (N.div (N_of_ascii c) 16); hex_digit (N.modulo (N_of_ascii c) 16)]
  else [c].

Fixpoint quote_chars (s : string) : list ascii :=
  match s with
  | EmptyString => []
  | String c s => quote_char c ++ quote_chars s
  end.

Definition quote (s : string) : list ascii := dquote :: quote_chars s ++ [dquote].

(** [SerializeJSONProperty] without a replacer or indentation: no white
    space, array elements and object members separated by commas. *)
Fixpoint serialize (v : value) : list ascii :=
  match v with
  | JNull => chars "null"
  | JBool true => chars "true"
  | JBool false => chars "false"
  | JNumber x => if is_finite x then double_chars x else chars "null"
  | JString s => quote s
  | JArray [] => chars "[]"
  | JArray (x :: l) =>
      "[" :: serialize x ++ flat_map (fun y => "," :: serialize y) l ++ ["]"]
  | JObject [] => chars "{}"
  | JObject ((k, x) :: l) =>
      "{" :: quote k ++ ":" :: serialize x
          ++ flat_map (fun m => "," :: quote (fst m) ++ ":" :: serialize (snd m)) l
          ++ ["}"]
  end.

Definition JSON_stringify (v : value) : string := string_of_list_ascii (serialize v).

(** ** Completions: a normal result or a thrown exception *)

Inductive exn : Type :=
| SyntaxError
| TypeError
| RangeError
| SecurityError
| Error (message : string).

Inductive completion (A : Type) : Type :=
| Normal (a : A)
| Throw (e : exn).

Arguments Normal {A} a.
Arguments Throw {A} e.

(** [try { body } catch (error) { handler }] *)
Definition try_catch {A : Type} (body : completion A) (handler : exn -> completion A)
  : completion A :=
  match body with
  | Normal a => Normal a
  | Throw e => handler e
  end.

#[global] Instance completion_bind : MBind completion :=
  fun A B (k : A -> completion B) (c : completion A) =>
    match c with
    | Normal a => k a
    | Throw e => Throw e
    end.

(** ** [JSON.parse]

    A recursive-descent reading of the JSON grammar.  The outcomes are a
    value with the rest of the text, a syntax error, or a text that is
    outside the model: a
    [\u] escape of a code unit above 255, or an object member named like an
    array index (the engine enumerates those first).  The recursion on
    nested values is by fuel; [Exhausted] reports that it ran out. *)

Inductive parsed (A : Type) : Type :=
| Ok (a : A)
| Fail
| Unmodelled
| Exhausted.

Arguments Ok {A} a.
Arguments Fail {A}.
Arguments Unmodelled {A}.
Arguments Exhausted {A}.

#[global] Instance parsed_bind : MBind parsed :=
  fun A B (k : A -> parsed B) (p : parsed A) =>
    match p with
    | Ok a => k a
    | Fail => Fail
    | Unmodelled => Unmodelled
    | Exhausted => Exhausted
    end.

Definition is_ws (c : ascii) : bool :=
  Ascii.eqb c " " || Ascii.eqb c (ascii_of_N 9)
  || Ascii.eqb c (ascii_of_N 10) || Ascii.eqb c (ascii_of_N 13).

Fixpoint skip_ws (s : list ascii) : list ascii :=
  match s with
  | c :: r => if is_ws c then skip_ws r else s
  | [] => []
  end.

Definition is_digit (c : ascii) : bool :=
  N.leb 48 (N_of_ascii c) && N.leb (N_of_ascii c) 57.

Definition digit (c : ascii) (u : Decimal.uint) : Decimal.uint :=
  match N_of_ascii c with
  | 48%N => Decimal.D0 u
  | 49%N => Decimal.D1 u
  | 50%N => Decimal.D2 u
  | 51%N => Decimal.D3 u
  | 52%N => Decimal.D4 u
  | 53%N => Decimal.D5 u
  | 54%N => Decimal.D6 u
  | 55%N => Decimal.D7 u
  | 56%N => Decimal.D8 u
  | _ => Decimal.D9 u
  end.

(** The longest run of digits at the head of the text. *)
Fixpoint lex_digits (s : list ascii) : Decimal.uint * list ascii :=
  match s with
  | c :: r =>
      if is_digit c then let '(u, r') := lex_digits r in (digit c u, r')
      else (Decimal.Nil, s)
  | [] => (Decimal.Nil, [])
  end.

(** A number literal after its optional sign: [0] or a digit run without a
    leading zero, then a fraction and an exponent if there are. *)
Definition well_formed_int (u : Decimal.uint) : bool :=
  match u with
  | Decimal.Nil => false
  | Decimal.D0 Decimal.Nil => true
  | Decimal.D0 _ => false
  | _ => true
  end.

Definition continues_number (r : list ascii) : bool :=
  match r with
  | c :: _ => Ascii.eqb c "." || Ascii.eqb c "e" || Ascii.eqb c "E"
  | [] => false
  end.

(** The digits after a point, if there is one. *)
Definition lex_fraction (r : list ascii) : parsed (Decimal.uint * list ascii) :=
  match r with
  | c :: r1 =>
      if Ascii.eqb c "."
      then let '(f, r2) := lex_digits r1 in
           match f with
           | Decimal.Nil => Fail
           | _ => Ok (f, r2)
           end
      else Ok (Decimal.Nil, r)
  | [] => Ok (Decimal.Nil, [])
  end.

(** The exponent after [e] or [E], if there is one. *)
Definition lex_exponent (r : list ascii) : parsed (Z * list ascii) :=
  match r with
  | c :: r1 =>
      if Ascii.eqb c "e" || Ascii.eqb c "E"
      then
        let '(negative, r2) :=
          match r1 with
          | s :: r2 =>
              if Ascii.eqb s "-" then (true, r2)
              else if Ascii.eqb s "+" then (false, r2)
              else (false, r1)
          | [] => (false, r1)
          end in
        let '(u, r3) := lex_digits r2 in
        match u with
        | Decimal.Nil => Fail
        | _ => Ok (cond_Zopp negative (Z.of_N (N.of_uint u)), r3)
        end
      else Ok (0, r)
  | [] => Ok (0, [])
  end.

Definition parse_number (negative : bool) (s : list ascii) : parsed (value * list ascii) :=
  let '(u, r) := lex_digits s in
  if negb (well_formed_int u) then Fail
  else
    '(f, r1) ← lex_fraction r;
    '(e, r2) ← lex_exponent r1;
    Ok (JNumber (double_of_decimal negative (N.of_uint (Decimal.app u f))
                                   (e - Z.of_nat (Decimal.nb_digits f))), r2).

Definition hex_value (c : ascii) : option N :=
  let n := N_of_ascii c in
  if N.leb 48 n && N.leb n 57 then Some (n - 48)%N
  else if N.leb 97 n && N.leb n 102 then Some (n - 87)%N
  else if N.leb 65 n && N.leb n 70 then Some (n - 55)%N
  else None.

Definition hex4 (a b c d : ascii) : option N :=
  match hex_value a, hex_value b, hex_value c, hex_value d with
  | Some x, Some y, Some z, Some w => Some (((x * 16 + y) * 16 + z) * 16 + w)%N
  | _, _, _, _ => None
  end.

(** The characters of a string literal after its opening quote, up to and
    including the closing quote. *)
Fixpoint parse_chars (s : list ascii) : parsed (string * list ascii) :=
  match s with
  | [] => Fail
  | c :: r =>
      if Ascii.eqb c dquote then Ok (EmptyString, r)
      else if Ascii.eqb c backslash then
        match r with
        | [] => Fail
        | e :: r1 =>
            let unescaped (c : ascii) :=
              '(str, r') ← parse_chars r1; Ok (String c str, r') in
            if Ascii.eqb e dquote then unescaped dquote
            else if Ascii.eqb e backslash then unescaped backslash
            else if Ascii.eqb e "/" then unescaped "/"
            else if Ascii.eqb e "b" then unescaped (ascii_of_N 8)
            else if Ascii.eqb e "f" then unescaped (ascii_of_N 12)
            else if Ascii.eqb e "n" then unescaped (ascii_of_N 10)
            else if Ascii.eqb e "r" then unescaped (ascii_of_N 13)
            else if Ascii.eqb e "t" then unescaped (ascii_of_N 9)
            else if Ascii.eqb e "u" then
              match r1 with
              | h1 :: h2 :: h3 :: h4 :: r2 =>
                  match hex4 h1 h2 h3 h4 with
                  | Some n =>
                      if N.ltb n 256
                      then '(str, r') ← parse_chars r2; Ok (String (ascii_of_N n) str, r')
                      else Unmodelled
                  | None => Fail
                  end
              | _ => Fail
              end
            else Fail
        end
      else if N.ltb (N_of_ascii c) 32 then Fail
      else '(str, r') ← parse_chars r; Ok (String c str, r')
  end.

(** A member name that is a canonical array index: digits only, no leading
    zero. *)
Definition is_index_key (k : string) : bool :=
  let '(u, r) := lex_digits (chars k) in
  well_formed_int u && bool_decide (r = []).

(** [CreateDataProperty] on the object under construction: a repeated name
    keeps its place and takes the later value. *)
Fixpoint set_property (k : string) (v : value) (o : list (string * value))
  : list (string * value) :=
  match o with
  | [] => [(k, v)]
  | (k', v') :: o' =>
      if bool_decide (k' = k) then (k, v) :: o' else (k', v') :: set_property k v o'
  end.

Definition expect (c : ascii) (s : list ascii) : parsed (list ascii) :=
  match skip_ws s with
  | c' :: r => if Ascii.eqb c' c then Ok r else Fail
  | [] => Fail
  end.

Definition literal (word : string) (v : value) (s : list ascii) : parsed (value * list ascii) :=
  let w := chars word in
  if bool_decide (take (length w) s = w) then Ok (v, drop (length w) s) else Fail.

(** [parse_value] reads one value; [parse_elements] reads the elements of
    an array from the first one to the closing bracket, [parse_members] the
    members of an object from the first one to the closing brace.  A value
    and the list it sits in each take one unit of fuel per character at
    most, so a fuel above twice the length of the text is never used up
    ([parse_value_fuel] below). *)
Fixpoint parse_value (fuel : nat) (s : list ascii) : parsed (value * list ascii) :=
  match fuel with
  | O => Exhausted
  | S fuel =>
      match skip_ws s with
      | [] => Fail
      | c :: r =>
          if Ascii.eqb c "n" then literal "null" JNull (c :: r)
          else if Ascii.eqb c "t" then literal "true" (JBool true) (c :: r)
          else if Ascii.eqb c "f" then literal "false" (JBool false) (c :: r)
          else if Ascii.eqb c dquote then
            '(str, r') ← parse_chars r; Ok (JString str, r')
          else if Ascii.eqb c "-" then parse_number true r
          else if is_digit c then parse_number false (c :: r)
          else if Ascii.eqb c "[" then
            match expect "]" r with
            | Ok r' => Ok (JArray [], r')
            | _ => parse_elements fuel [] r
            end
          else if Ascii.eqb c "{" then
            match expect "}" r with
            | Ok r' => Ok (JObject [], r')
            | _ => parse_members fuel [] r
            end
          else Fail
      end
  end
with parse_elements (fuel : nat) (acc : list value) (s : list ascii)
  : parsed (value * list ascii) :=
  match fuel with
  | O => Exhausted
  | S fuel =>
      '(v, r) ← parse_value fuel s;
      let acc := (acc ++ [v])%list in
      match skip_ws r with
      | [] => Fail
      | c :: r' =>
          if Ascii.eqb c "]" then Ok (JArray acc, r')
          else if Ascii.eqb c "," then parse_elements fuel acc r'
          else Fail
      end
  end
with parse_members (fuel : nat) (acc : list (string * value)) (s : list ascii)
  : parsed (value * list ascii) :=
  match fuel with
  | O => Exhausted
  | S fuel =>
      r1 ← expect dquote s;
      '(k, r2) ← parse_chars r1;
      r3 ← expect ":" r2;
      '(v, r4) ← parse_value fuel r3;
      if is_index_key k then Unmodelled
      else
        let acc := set_property k v acc in
        match skip_ws r4 with
        | [] => Fail
        | c :: r' =>
            if Ascii.eqb c "}" then Ok (JObject acc, r')
            else if Ascii.eqb c "," then parse_members fuel acc r'
            else Fail
        end
  end.

(** [JSON.parse(text)]: the completion of the call, or [None] when the text
    is outside the model. *)
Definition JSON_parse (text : string) : option (completion value) :=
  let s := chars text in
  match parse_value (S (2 * length s)) s with
  | Ok (v, r) =>
      match skip_ws r with
      | [] => Some (Normal v)
      | _ :: _ => Some (Throw SyntaxError)
      end
  | Fail => Some (Throw SyntaxError)
  | Unmodelled | Exhausted => None
  end.

(** Test texts are written with an apostrophe where JSON has a double
    quote. *)
Definition json_text (s : string) : string :=
  string_of_list_ascii
    (map (fun c => if Ascii.eqb c "'" then dquote else c) (chars s)).

Local Close Scope char_scope.

(** ** Data model (the declarations of '@/lib/types' are not part of the
    sources at hand) *)

(** Modelled from the spec: the [Product] declaration of '@/lib/types'.
    A product has an identifier, a price and further display fields (name,
    image references, category, stock flag, size and colour options); the
    cart reads [id] and [price] only, the other fields are carried along as
    an ordered property list. *)
Record Product : Type := mkProduct {
  id : string;
  price : Z;
  display : list (string * value)
}.

(** Modelled from the spec: the [CartItem] declaration of '@/lib/types', a
    product's fields together with a [quantity].  [fields] holds what the
    spread [{...product}] copied. *)
Record CartItem : Type := mkCartItem {
  fields :> Product;
  quantity : Z
}.

(** [{ ...product, quantity: q }] *)
Definition spread_product (product : Product) (q : Z) : CartItem :=
  {| fields := product; quantity := q |}.

(** [{ ...item, quantity: q }] *)
Definition spread_item (item : CartItem) (q : Z) : CartItem :=
  {| fields := fields item; quantity := q |}.

(** ** The state updaters of [CartProvider] *)

Section Updaters.

Implicit Types (product : Product) (item : CartItem) (prevItems : list CartItem).
Implicit Types (productId : string) (qty : Z).

(** [addToCart], lines 51-66; [qty] is the source's parameter [quantity]
    (default 1), renamed because [quantity] is the field. *)
Definition addToCart product qty prevItems : list CartItem :=
  match find (fun item => bool_decide (id item = id product)) prevItems with
  | Some existingItem =>
      map (fun item =>
             if bool_decide (id item = id product)
             then spread_item item (Z.max 0 (quantity item + qty))
             else item)
          prevItems
  | None =>
      let newCartItem := spread_product product (Z.max 1 qty) in
      prevItems ++ [newCartItem]
  end.

(** [addToCart(product)] with the parameter left out, as the product card
    calls it. *)
Definition addToCart_default product prevItems : list CartItem :=
  addToCart product 1 prevItems.

(** [removeFromCart], lines 68-70 *)
Definition removeFromCart productId prevItems : list CartItem :=
  List.filter (fun item => negb (bool_decide (id item = productId))) prevItems.

(** [updateQuantity], lines 72-82, on an integer quantity;
  [Js.updateQuantity] has the other numbers, NaN among them. *)
Definition updateQuantity productId qty prevItems : list CartItem :=
  if Z.leb qty 0 then removeFromCart productId prevItems
  else
    map (fun item =>
           if bool_decide (id item = productId) then spread_item item qty else item)
        prevItems.

(** [clearCart], lines 84-86 *)
Definition clearCart prevItems : list CartItem := [].

(** [cartTotal] and [itemCount], lines 88-89, on the integer prices and
  quantities of the typed view; [Js.cartTotal] and [Js.itemCount] are
  the sums in double arithmetic. *)
Definition cartTotal (cartItems : list CartItem) : Z :=
  fold_left (fun total item => total + price item * quantity item) cartItems 0.

Definition itemCount (cartItems : list CartItem) : Z :=
  fold_left (fun count item => count + quantity item) cartItems 0.

End Updaters.

(** ** Line items in storage

    The persistence effect stringifies the array of line items; each is an
    object with the product's properties and [quantity], which the spread
    puts last.  [id] and [price] are written first: the place they have
    among the display fields of a catalogue record is not fixed by the
    sources, and nothing below depends on it. *)

Definition CartItem_value (item : CartItem) : value :=
  JObject ([("id", JString (id item)); ("price", JNumber (double_of_Z (price item)))]
             ++ display item ++ [("quantity", JNumber (double_of_Z (quantity item)))]).

Definition cartItems_value (cartItems : list CartItem) : value :=
  JArray (map CartItem_value cartItems).

Definition lookup_property (k : string) (o : list (string * value)) : option value :=
  snd <$> find (fun m => bool_decide (fst m = k)) o.

Definition typed_keys : list string := ["id"; "price"; "quantity"].

(** [setCartItems(parsedData)] hands an unchecked array to a state declared
    as [CartItem[]].  [as_CartItem] reads a parsed value at that type: an
    object with a string [id], an integer [price] and an integer
    [quantity]; anything else has no reading in the typed view ([Module Js]
    has the provider on the values as they are). *)
Definition as_CartItem (v : value) : option CartItem :=
  match v with
  | JObject o =>
      match lookup_property "id" o, lookup_property "price" o,
            lookup_property "quantity" o with
      | Some (JString i), Some (JNumber p), Some (JNumber q) =>
          p ← double_to_Z p;
          q ← double_to_Z q;
          Some {| fields :=
                    {| id := i; price := p;
                       display := List.filter
                                    (fun m => negb (bool_decide (fst m ∈ typed_keys))) o |};
                  quantity := q |}
      | _, _, _ => None
      end
  | _ => None
  end.

Definition as_CartItems (parsedData : value) : option (list CartItem) :=
  match parsedData with
  | JArray elements => mapM as_CartItem elements
  | _ => None
  end.

(** ** The provider: state and effects *)

Record Store : Type := mkStore {
  cartItems : list CartItem;
  hasMounted : bool;
  localStorage : gmap string string
}.

(** The first render: [useState([])], [useState(false)]. *)
Definition initial (storage : gmap string string) : Store :=
  {| cartItems := []; hasMounted := false; localStorage := storage |}.

Inductive console_entry : Type :=
| console_warn (message : string)
| console_error (message : string).

(** What one run of the hydration effect (lines 25-42) does: the state
    setters it calls and the storage and console it leaves. *)
Record hydration : Type := mkHydration {
  setHasMounted : bool;
  setCartItems_arg : option value;
  storage_after : gmap string string;
  console : list console_entry
}.

(** A string is truthy unless it is empty. *)
Definition truthy (s : string) : bool := negb (bool_decide (s = "")).

(** The hydration effect, lines 25-42, on a storage that can be read.
    [getItem] (line 27) is called before the [try]: what it throws is not
    caught, and [Js.mount] has that case.  The only check on what was
    parsed is [Array.isArray] (line 31). *)
Definition hydration_effect (storage : gmap string string) : option (completion hydration) :=
  let ran (arg : option value) (storage' : gmap string string)
          (log : list console_entry) : completion hydration :=
    Normal {| setHasMounted := true; setCartItems_arg := arg;
              storage_after := storage'; console := log |} in
  let localData := storage !! "cartItems" in
  match localData with
  | Some text =>
      if truthy text then
        call ← JSON_parse text;
        Some
          (try_catch
             (parsedData ← call;
              if isArray parsedData then ran (Some parsedData) storage []
              else ran None (delete "cartItems" storage)
                       [console_warn "Invalid cart data in localStorage:"])
             (fun error =>
                ran None (delete "cartItems" storage)
                    [console_error "Error parsing cart data from localStorage:"]))
      else Some (ran None storage [])
  | None => Some (ran None storage [])
  end.

(** The persistence effect (lines 45-49), run after every commit that
    changed [cartItems] or [hasMounted]. *)
Definition persistence_effect (st : Store) : Store :=
  if hasMounted st
  then {| cartItems := cartItems st; hasMounted := hasMounted st;
          localStorage :=
            <["cartItems" := JSON_stringify (cartItems_value (cartItems st))]>
              (localStorage st) |}
  else st.

(** [setCartItems(updater)] followed by the commit's effects. *)
Definition setCartItems (updater : list CartItem -> list CartItem) (st : Store) : Store :=
  persistence_effect
    {| cartItems := updater (cartItems st); hasMounted := hasMounted st;
       localStorage := localStorage st |}.

(** The mount: the hydration effect runs on the first commit (the
    persistence effect of that commit still sees [hasMounted = false]); the
    re-render it causes runs the persistence effect.  This is the typed
    view: [None] when the stored text is outside the model or the array it
    holds has an element that is no [CartItem]; the code installs such an
    array as it is, which [Js.mount] follows. *)
Definition mount (st : Store) : option Store :=
  match hydration_effect (localStorage st) with
  | Some (Normal h) =>
      items ← match setCartItems_arg h with
               | Some parsedData => as_CartItems parsedData
               | None => Some (cartItems st)
               end;
      Some (persistence_effect
              {| cartItems := items; hasMounted := setHasMounted h;
                 localStorage := storage_after h |})
  | _ => None
  end.

(** The context value of a render (lines 91-97): the line items and the
    values derived from them. *)
Record CartContextType : Type := mkContext {
  ctx_cartItems : list CartItem;
  ctx_cartTotal : Z;
  ctx_itemCount : Z;
  ctx_hasMounted : bool
}.

Definition provided (st : Store) : CartContextType :=
  {| ctx_cartItems := cartItems st;
     ctx_cartTotal := cartTotal (cartItems st);
     ctx_itemCount := itemCount (cartItems st);
     ctx_hasMounted := hasMounted st |}.

(** [useCart], lines 100-106; [context] is what [useContext(CartContext)]
    returned, [None] for [undefined]. *)
Definition useCart (context : option CartContextType) : completion CartContextType :=
  match context with
  | None => Throw (Error "useCart must be used within a CartProvider")
  | Some context => Normal context
  end.

Local Open Scope list_scope.

(** ** Vocabulary: JSON texts that are read back *)




(** A text that can follow a value inside an array or an object, or end
    the input. *)
Definition closes (r : list ascii) : bool :=
  match r with
  | [] => true
  | c :: _ => Ascii.eqb c "," || Ascii.eqb c "]" || Ascii.eqb c "}"
  end.


(** What [serialize] writes after the first element of an array, and after
    the first member of an object. *)
Definition array_tail (l : list value) : list ascii :=
  flat_map (fun y => ","%char :: serialize y) l.

Definition object_tail (l : list (string * value)) : list ascii :=
  flat_map (fun m => ","%char :: quote (fst m) ++ ":"%char :: serialize (snd m)) l.


(** ** Vocabulary: what a parser takes from the text *)

(** [res] is not out of fuel and leaves less than [s]. *)
Definition consumes {A} (s : list ascii) (res : parsed (A * list ascii)) : Prop :=
  res <> Exhausted /\ forall a r, res = Ok (a, r) -> (length r < length s)%nat.

(** ** Vocabulary: carts, sums and reachable states *)

(** A line item for [productId] is in the cart. *)
Definition in_cart (productId : string) (items : list CartItem) : Prop :=
  exists item : CartItem, item ∈ items /\ id item = productId.

(** The product identifiers of the line items, in order. *)
Definition ids (items : list CartItem) : list string :=
  map (fun item : CartItem => id item) items.

(** The spec's sums over the line items. *)
Fixpoint sum_over (f : CartItem -> Z) (items : list CartItem) : Z :=
  match items with
  | [] => 0
  | item :: items => f item + sum_over f items
  end.

(** What one line item adds to the total. *)
Definition line_total (item : CartItem) : Z := price item * quantity item.

(** The states the four mutation operations reach from the empty cart. *)
Inductive reachable : list CartItem -> Prop :=
| reach_empty : reachable []
| reach_addToCart product qty items :
    reachable items -> reachable (addToCart product qty items)
| reach_removeFromCart productId items :
    reachable items -> reachable (removeFromCart productId items)
| reach_updateQuantity productId qty items :
    reachable items -> reachable (updateQuantity productId qty items)
| reach_clearCart items :
    reachable items -> reachable (clearCart items).


(** The products of the spec's scenarios, and one with display fields. *)
Definition p1 : Product := {| id := "p1"; price := 10; display := [] |}.
Definition p2 : Product := {| id := "p2"; price := 5; display := [] |}.
Definition p3 : Product :=
  {| id := "p3"; price := 20;
     display := [("name", JString "Linen shirt"); ("inStock", JBool true);
                 ("images", JArray [JString "/img/p3.png"])] |}.

(** Two carts to try the updaters on. *)
Definition sample_cart : list CartItem :=
  [{| fields := p1; quantity := 2 |}; {| fields := p2; quantity := 4 |}].





(** The line items of one product identifier. *)
Definition with_id (productId : string) (items : list CartItem) : list CartItem :=
  List.filter (fun item : CartItem => bool_decide (id item = productId)) items.

(** * The provider as it runs

    TypeScript's types are gone at run time: the line items are the
    JavaScript values that the updaters built or that hydration installed,
    and the numbers are doubles.  [Module Js] has the provider on those
    values, with the conversions that the operators [===], [+], [*] and
    [<=] make.  A result is [None] where the code leaves the model: a
    string, an array or an object under [+] or [*] (they convert through
    their texts), two arrays or objects under [===] (they are compared by
    identity), a spread of a string or an array. *)

Module Js.

Definition result (A : Type) : Type := option (completion A).

Definition ret {A : Type} (a : A) : result A := Some (Normal a).

Definition bind {A B : Type} (r : result A) (k : A -> result B) : result B :=
  match r with
  | Some (Normal a) => k a
  | Some (Throw e) => Some (Throw e)
  | None => None
  end.

Notation "'let*' x ':=' r 'in' k" := (bind r (fun x => k))
  (at level 10, x name, r at level 100, k at level 200).

Fixpoint mapM {A B : Type} (f : A -> result B) (l : list A) : result (list B) :=
  match l with
  | [] => ret []
  | a :: l => let* b := f a in let* bs := mapM f l in ret (b :: bs)
  end.

Fixpoint filterM {A : Type} (f : A -> result bool) (l : list A) : result (list A) :=
  match l with
  | [] => ret []
  | a :: l => let* keep := f a in let* rest := filterM f l in
              ret (if keep then a :: rest else rest)
  end.

(** [v.k] for a name that no prototype has, as [id], [price] and
    [quantity] are: a [TypeError] on [null], the member of an object,
    [undefined] ([None]) on anything else. *)
Definition get (v : value) (k : string) : result (option value) :=
  match v with
  | JNull => Some (Throw TypeError)
  | JObject o => ret (lookup_property k o)
  | _ => ret None
  end.

(** [a === b] *)
Definition strict_equals (a b : option value) : result bool :=
  match a, b with
  | None, None => ret true
  | Some JNull, Some JNull => ret true
  | Some (JBool x), Some (JBool y) => ret (Bool.eqb x y)
  | Some (JNumber x), Some (JNumber y) => ret (SFeqb x y)
  | Some (JString x), Some (JString y) => ret (bool_decide (x = y))
  | Some (JArray _ | JObject _), Some (JArray _ | JObject _) => None
  | _, _ => ret false
  end.

(** [ToBoolean] *)
Definition ToBoolean (v : option value) : bool :=
  match v with
  | None | Some JNull => false
  | Some (JBool b) => b
  | Some (JNumber x) =>
      match x with
      | S754_zero _ | S754_nan => false
      | _ => true
      end
  | Some (JString s) => negb (bool_decide (s = ""))
  | Some (JArray _ | JObject _) => true
  end.

(** [ToNumber] *)
Definition ToNumber (v : option value) : result double :=
  match v with
  | None => ret S754_nan
  | Some JNull => ret (S754_zero false)
  | Some (JBool b) => ret (if b then double_of_Z 1 else S754_zero false)
  | Some (JNumber x) => ret x
  | Some (JString _ | JArray _ | JObject _) => None
  end.

(** [v + x] for a number [x]: a sum of numbers unless [v] is a string, an
    array or an object. *)
Definition plus (v : option value) (x : double) : result double :=
  let* y := ToNumber v in ret (double_add y x).

(** [{ ...v, quantity: q }] *)
Definition spread_quantity (v : value) (q : double) : result value :=
  match v with
  | JObject o => ret (JObject (set_property "quantity" (JNumber q) o))
  | JNull | JBool _ | JNumber _ => ret (JObject [("quantity", JNumber q)])
  | JString _ | JArray _ => None
  end.

Section Updaters.

Implicit Types (product item : value) (prevItems : list value).
Implicit Types (productId : string) (quantity : double).

(** [item.id === product.id] *)
Definition same_id product item : result bool :=
  let* a := get item "id" in
  let* b := get product "id" in
  strict_equals a b.

(** [prevItems.find(item => item.id === product.id)] *)
Fixpoint find_item product prevItems : result (option value) :=
  match prevItems with
  | [] => ret None
  | item :: rest =>
      let* found := same_id product item in
      if found then ret (Some item) else find_item product rest
  end.

(** [addToCart], lines 51-66 *)
Definition addToCart product quantity prevItems : result (list value) :=
  let* existingItem := find_item product prevItems in
  if ToBoolean existingItem then
    mapM (fun item =>
            let* found := same_id product item in
            if found then
              let* held := get item "quantity" in
              let* sum := plus held quantity in
              spread_quantity item (Math_max (S754_zero false) sum)
            else ret item)
         prevItems
  else
    let* newCartItem := spread_quantity product (Math_max (double_of_Z 1) quantity) in
    ret (prevItems ++ [newCartItem]).

(** [item.id !== productId] and [item.id === productId] *)
Definition has_id productId item : result bool :=
  let* a := get item "id" in strict_equals a (Some (JString productId)).

(** [removeFromCart], lines 68-70 *)
Definition removeFromCart productId prevItems : result (list value) :=
  filterM (fun item => let* found := has_id productId item in ret (negb found))
          prevItems.

(** [updateQuantity], lines 72-82; [NaN <= 0] is false. *)
Definition updateQuantity productId quantity prevItems : result (list value) :=
  if SFleb quantity (S754_zero false) then removeFromCart productId prevItems
  else
    mapM (fun item =>
            let* found := has_id productId item in
            if found then spread_quantity item quantity else ret item)
         prevItems.

(** [clearCart], lines 84-86 *)
Definition clearCart prevItems : result (list value) := ret [].

(** [item.price * item.quantity] *)
Definition line_total item : result double :=
  let* held_price := get item "price" in
  let* held_quantity := get item "quantity" in
  let* p := ToNumber held_price in
  let* q := ToNumber held_quantity in
  ret (double_mul p q).

(** [cartTotal] and [itemCount], lines 88-89: the reductions from the
    left, starting at 0. *)
Definition cartTotal (cartItems : list value) : result double :=
  fold_left (fun total item =>
               let* total := total in
               let* line := line_total item in
               ret (double_add total line))
            cartItems (ret (S754_zero false)).

Definition itemCount (cartItems : list value) : result double :=
  fold_left (fun count item =>
               let* count := count in
               let* held := get item "quantity" in
               let* q := ToNumber held in
               ret (double_add count q))
            cartItems (ret (S754_zero false)).

End Updaters.

(** ** The provider: state, renders and effects *)

(** [localStorage] is [None] where the storage cannot be read: [getItem]
    and [setItem] then throw a [SecurityError]. *)
Record Store : Type := mkStore {
  cartItems : list value;
  hasMounted : bool;
  localStorage : option (gmap string string)
}.

Definition initial (storage : option (gmap string string)) : Store :=
  {| cartItems := []; hasMounted := false; localStorage := storage |}.

Record CartContextType : Type := mkContext {
  ctx_cartItems : list value;
  ctx_cartTotal : double;
  ctx_itemCount : double;
  ctx_hasMounted : bool
}.

(** A render, lines 88-97: it computes the totals and throws what they
    throw. *)
Definition provided (st : Store) : result CartContextType :=
  let* total := cartTotal (cartItems st) in
  let* count := itemCount (cartItems st) in
  ret {| ctx_cartItems := cartItems st;
         ctx_cartTotal := total;
         ctx_itemCount := count;
         ctx_hasMounted := hasMounted st |}.

(** The persistence effect, lines 45-49. *)
Definition persistence_effect (st : Store) : result Store :=
  if hasMounted st then
    match localStorage st with
    | Some data =>
        ret {| cartItems := cartItems st; hasMounted := hasMounted st;
               localStorage :=
                 Some (<["cartItems" := JSON_stringify (JArray (cartItems st))]> data) |}
    | None => Some (Throw SecurityError)
    end
  else ret st.

(** A state change: the render of the new state, then its effects. *)
Definition commit (st : Store) : result Store :=
  let* context := provided st in persistence_effect st.

(** [setCartItems(updater)] *)
Definition setCartItems (updater : list value -> result (list value)) (st : Store)
  : result Store :=
  let* items := updater (cartItems st) in
  commit {| cartItems := items; hasMounted := hasMounted st;
            localStorage := localStorage st |}.

(** The mount: the hydration effect of lines 25-42 on the first commit,
    then the render and the effects of the state it set.  [getItem] (line
    27) is outside the [try]. *)
Definition mount (st : Store) : result Store :=
  match localStorage st with
  | None => Some (Throw SecurityError)
  | Some data =>
      match hydration_effect data with
      | Some (Normal h) =>
          commit {| cartItems := match setCartItems_arg h with
                                 | Some (JArray parsedData) => parsedData
                                 | _ => cartItems st
                                 end;
                    hasMounted := setHasMounted h;
                    localStorage := Some (storage_after h) |}
      | Some (Throw e) => Some (Throw e)
      | None => None
      end
  end.

(** The functions of the context value. *)
Inductive call : Type :=
| call_addToCart (product : value) (quantity : option double)
| call_removeFromCart (productId : string)
| call_updateQuantity (productId : string) (quantity : double)
| call_clearCart.

Definition updater_of (c : call) : list value -> result (list value) :=
  match c with
  | call_addToCart product quantity =>
      addToCart product (default (double_of_Z 1) quantity)
  | call_removeFromCart productId => removeFromCart productId
  | call_updateQuantity productId quantity => updateQuantity productId quantity
  | call_clearCart => clearCart
  end.

Definition perform (c : call) (st : Store) : result Store := setCartItems (updater_of c) st.

End Js.

(** ** Vocabulary: line items at run time *)

(** A number that is not below zero: [0 <= x]. *)
Definition not_negative (x : double) : Prop := SFleb (S754_zero false) x = true.

(** The identifier and the quantity of a line item: the string under [id]
    and the number under [quantity] of an object. *)
Definition item_id (item : value) : option string :=
  match item with
  | JObject o =>
      match lookup_property "id" o with
      | Some (JString s) => Some s
      | _ => None
      end
  | _ => None
  end.

Definition item_quantity (item : value) : option double :=
  match item with
  | JObject o =>
      match lookup_property "quantity" o with
      | Some (JNumber q) => Some q
      | _ => None
      end
  | _ => None
  end.

Definition item_ids (items : list value) : list string := omap item_id items.

Definition line_item (item : value) : Prop :=
  is_Some (item_id item) /\ is_Some (item_quantity item).

(** [{ ...item, quantity: q }] on an object. *)
Definition set_quantity (q : double) (item : value) : value :=
  match item with
  | JObject o => JObject (set_property "quantity" (JNumber q) o)
  | _ => item
  end.

(** The updaters on line items, as functions. *)
Definition has_item_id (pid : string) (item : value) : bool :=
  bool_decide (item_id item = Some pid).

Definition raise_quantity (q : double) (item : value) : value :=
  set_quantity (Math_max (S754_zero false)
                         (double_add (default S754_nan (item_quantity item)) q)) item.

(** A call as TypeScript lets it through: the product of [addToCart] has
    a string [id]; the quantities are in [allowed]. *)
Definition typed_call (allowed : double -> Prop) (c : Js.call) : Prop :=
  match c with
  | Js.call_addToCart product quantity =>
      is_Some (item_id product) /\ allowed (default (double_of_Z 1) quantity)
  | Js.call_updateQuantity _ quantity => allowed quantity
  | _ => True
  end.

(** The carts reached from the empty cart by such calls. *)
Inductive cart_reached (allowed : double -> Prop) : list value -> Prop :=
| reached_empty : cart_reached allowed []
| reached_call c items items' :
    cart_reached allowed items -> typed_call allowed c ->
    Js.updater_of c items = Some (Normal items') ->
    cart_reached allowed items'.

(** The quantity of a line item is a number in [Q]. *)
Definition quantity_in (Q : double -> Prop) (item : value) : Prop :=
  is_Some (item_id item) /\ exists q, item_quantity item = Some q /\ Q q.

(** ** Vocabulary: sample products *)

(** Sample products, as the catalogue hands them over. *)
Definition product1 : value :=
  JObject [("id", JString "p1"); ("name", JString "Shirt"); ("price", JNumber (double_of_Z 10))].


(** ** Vocabulary: states of the running provider *)

(** A mounted store with two line items, not yet persisted. *)
Definition sample_store : Store :=
  {| cartItems := [{| fields := p3; quantity := 2 |}; {| fields := p1; quantity := 1 |}];
     hasMounted := true; localStorage := ∅ |}.

(** The states of a provider as it runs: created on a storage ([None] if
    it cannot be read), mounted once, its functions called at any time
    with the products TypeScript lets through.  A mount or a call that
    throws leaves no state. *)
Inductive provider_reaches (storage : option (gmap string string)) : Js.Store -> Prop :=
| reaches_initial : provider_reaches storage (Js.initial storage)
| reaches_mount st st' :
    provider_reaches storage st -> Js.hasMounted st = false ->
    Js.mount st = Some (Normal st') ->
    provider_reaches storage st'
| reaches_call c st st' :
    provider_reaches storage st -> typed_call (fun _ => True) c ->
    Js.perform c st = Some (Normal st') ->
    provider_reaches storage st'.

(** A stored array with two line items of one product. *)
Definition duplicate_snapshot : string :=
  json_text "[{'id':'p1','price':10,'quantity':1},{'id':'p1','price':10,'quantity':2}]".

(** * The rest of the provider and the pages that use it *)

(** ** The functions of the context value (CartContext.tsx, lines 51-86)

    Each is [setCartItems] on its updater; [quantity] of [addToCart] is
    optional and defaults to 1. *)

Inductive call : Type :=
| call_addToCart (product : Product) (quantity : option Z)
| call_removeFromCart (productId : string)
| call_updateQuantity (productId : string) (quantity : Z)
| call_clearCart.

Definition updater_of (c : call) : list CartItem -> list CartItem :=
  match c with
  | call_addToCart product quantity => addToCart product (default 1 quantity)
  | call_removeFromCart productId => removeFromCart productId
  | call_updateQuantity productId quantity => updateQuantity productId quantity
  | call_clearCart => clearCart
  end.

Definition perform (c : call) (st : Store) : Store := setCartItems (updater_of c) st.


(** ** Numbers read from texts

    A number that a text of digits can denote: an integer, [NaN] or an
    infinity. *)

Inductive number : Type :=
| Int (n : Z)
| NaN
| Infinity (negative : bool).

(** [Number.prototype.toString], radix 10: an integer is written with its
    digits, as the engine writes those below 10^21 in magnitude. *)
Definition Number_toString (n : number) : string :=
  match n with
  | Int z => string_of_list_ascii (number_chars z)
  | NaN => "NaN"
  | Infinity false => "Infinity"
  | Infinity true => "-Infinity"
  end.

(** The number that an integer denotes: itself up to 2^53, where every
    integer is a double; beyond, the nearest double, ties to even, or an
    infinity. *)
Definition double_round (z : Z) : number :=
  if Z.leb (Z.abs z) (2 ^ 53) then Int z
  else match double_of_Z z with
       | S754_infinity negative => Infinity negative
       | x => Int (default z (double_to_Z x))
       end.

(** [n || d]: [NaN] and 0 are falsy. *)
Definition number_or (n d : number) : number :=
  match n with
  | Int 0 | NaN => d
  | _ => n
  end.

(** [Math.max(a, b)] on these numbers. *)
Definition number_max (a b : number) : number :=
  match a, b with
  | NaN, _ | _, NaN => NaN
  | Infinity false, _ | _, Infinity false => Infinity false
  | Infinity true, other | other, Infinity true => other
  | Int x, Int y => Int (Z.max x y)
  end.

(** [StrWhiteSpaceChar] among the code units below 256. *)
Definition is_str_ws (c : ascii) : bool :=
  bool_decide (N_of_ascii c ∈ [9; 10; 11; 12; 13; 32; 160]%N).

Fixpoint trim_start (s : list ascii) : list ascii :=
  match s with
  | c :: r => if is_str_ws c then trim_start r else s
  | [] => []
  end.

(** An optional sign: whether it is a minus, and the rest. *)
Definition read_sign (s : list ascii) : bool * list ascii :=
  match s with
  | c :: r =>
      if Ascii.eqb c "-" then (true, r)
      else if Ascii.eqb c "+" then (false, r)
      else (false, s)
  | [] => (false, [])
  end.

(** The value of a digit in a radix up to 36. *)
Definition digit_value (c : ascii) : option N :=
  let n := N_of_ascii c in
  if N.leb 48 n && N.leb n 57 then Some (n - 48)%N
  else if N.leb 97 n && N.leb n 122 then Some (n - 87)%N
  else if N.leb 65 n && N.leb n 90 then Some (n - 55)%N
  else None.

(** The value of the longest run of digits of the radix at the head of the
    text; [acc] is the value read so far, [None] before the first digit. *)
Fixpoint radix_digits (radix : N) (acc : option N) (s : list ascii) : option N :=
  match s with
  | c :: r =>
      match digit_value c with
      | Some d =>
          if N.ltb d radix then radix_digits radix (Some (default 0 acc * radix + d)%N) r
          else acc
      | None => acc
      end
  | [] => acc
  end.

Definition hex_prefixed (s : list ascii) : bool :=
  match s with
  | c :: x :: _ => Ascii.eqb c "0" && (Ascii.eqb x "x" || Ascii.eqb x "X")
  | _ => false
  end.

(** [parseInt(text, radix)]; [radix] is [None] when the argument is left
    out. *)
Definition parseInt (text : string) (radix : option Z) : number :=
  let '(negative, s) := read_sign (trim_start (chars text)) in
  let R := default 0 radix in
  if negb (Z.eqb R 0) && (Z.ltb R 2 || Z.ltb 36 R) then NaN
  else
    let stripPrefix := Z.eqb R 0 || Z.eqb R 16 in
    let R := if Z.eqb R 0 then 10 else R in
    let '(R, s) := if stripPrefix && hex_prefixed s then (16, drop 2 s) else (R, s) in
    match radix_digits (Z.to_N R) None s with
    | Some n => double_round (if negative then - Z.of_N n else Z.of_N n)
    | None => NaN
    end.

(** [parseFloat(text)] on a text whose longest numeric prefix is an integer
    literal or [Infinity], and on a text without a numeric prefix; [None]
    when the prefix goes on with a fraction or an exponent: those values
    are outside the model. *)
Definition parseFloat (text : string) : option number :=
  let '(negative, s) := read_sign (trim_start (chars text)) in
  match s with
  | c :: _ =>
      if is_digit c then
        let '(u, r) := lex_digits s in
        if continues_number r then None
        else
          let n := Z.of_N (N.of_uint u) in
          Some (Int (if negative then - n else n))
      else if Ascii.eqb c "." then None
      else if bool_decide (take 8 s = chars "Infinity") then Some (Infinity negative)
      else Some NaN
  | [] => Some NaN
  end.

(** ** The product page (app/shop/product/[id]/page.tsx) *)

(** The quantity field, line 189:
    [setQuantity(Math.max(1, parseInt(e.target.value) || 1))]. *)
Definition quantity_onChange (value : string) : number :=
  number_max (Int 1) (number_or (parseInt value None) (Int 1)).

(** [handleAddToCart], lines 75-88, on the store; [product] is [None]
    while no product is loaded.  (The toast is left out.) *)
Definition handleAddToCart (product : option Product) (quantity : Z) (st : Store) : Store :=
  match product with
  | Some product => perform (call_addToCart product (Some quantity)) st
  | None => st
  end.


Definition placeholder : string := "https://placehold.co/600x800.png".

(** [images.slice(first, last)] for indices within [0, 2^53). *)
Definition slice {A} (first last : nat) (l : list A) : list A :=
  take (last - first) (drop first l).

(** [mainImage] and [thumbnailImages], lines 98-99, from [product.images]
    (also [imageUrl] of the product card, line 32); [images] is [None]
    for a product without the field.  Line 98 asks for the field before its
    length, line 99 does not. *)
Definition mainImage (images : option (list string)) : string :=
  match images with
  | Some (first :: _) => first
  | Some [] | None => placeholder
  end.

Definition thumbnailImages (images : option (list string)) : completion (list string) :=
  match images with
  | Some images => Normal (if Nat.ltb 1 (length images) then slice 1 4 images else [])
  | None => Throw TypeError
  end.

(** The related products kept, line 49:
    [items.filter(p => p.id !== data.id)]. *)
Definition relatedProducts (items : list Product) (data : Product) : list Product :=
  List.filter (fun p => negb (bool_decide (id p = id data))) items.

(** ** The shop page (app/shop/page.tsx) *)

(** *** Query parameters

    A [URLSearchParams] is its list of name-value pairs.  The page pushes
    [pathname?queryParams.toString()] and reads the parameters of the new
    address; writing the pairs into the address and reading them back gives
    the same pairs, so the parameters read are the parameters pushed. *)

Definition URLSearchParams : Type := list (string * string).

(** [get(name)]: the first value, [None] for [null]. *)
Definition params_get (name : string) (ps : URLSearchParams) : option string :=
  snd <$> find (fun p => bool_decide (fst p = name)) ps.

(** [getAll(name)] *)
Definition params_getAll (name : string) (ps : URLSearchParams) : list string :=
  map snd (List.filter (fun p => bool_decide (fst p = name)) ps).

(** [set(name, value)]: the first pair of that name takes the value and the
    others go; without such a pair, one is added at the end. *)
Fixpoint params_set (name value : string) (ps : URLSearchParams) : URLSearchParams :=
  match ps with
  | [] => [(name, value)]
  | (k, v) :: ps' =>
      if bool_decide (k = name)
      then (name, value) :: List.filter (fun p => negb (bool_decide (fst p = name))) ps'
      else (k, v) :: params_set name value ps'
  end.

(** [append(name, value)] *)
Definition params_append (name value : string) (ps : URLSearchParams) : URLSearchParams :=
  ps ++ [(name, value)].

(** [AppliedFiltersStateFromPanel], lines 26-31.  [sortOrder] is declared
    ['asc' | 'desc'] and read from the address by an unchecked cast: at run
    time it is any string. *)
Record AppliedFiltersStateFromPanel : Type := mkFilters {
  priceRange : option (number * number);
  categoryIds : option (list string);
  sortBy : option string;
  sortOrder : option string
}.

(** [s || undefined] on what [get] returned. *)
Definition or_undefined (s : option string) : option string :=
  match s with
  | Some text => if truthy text then Some text else None
  | None => None
  end.

(** [parseFiltersFromUrl], lines 65-83; [None] when a price is outside the
    model. *)
Definition parseFiltersFromUrl (searchParams : URLSearchParams)
  : option AppliedFiltersStateFromPanel :=
  let sortBy := or_undefined (params_get "sortBy" searchParams) in
  let sortOrder := or_undefined (params_get "sortOrder" searchParams) in
  let categoryIdsFromUrl := params_getAll "category" searchParams in
  let minPriceStr := params_get "minPrice" searchParams in
  let maxPriceStr := params_get "maxPrice" searchParams in
  priceRangeVal ←
    match or_undefined minPriceStr, or_undefined maxPriceStr with
    | Some minText, Some maxText =>
        low ← parseFloat minText; high ← parseFloat maxText; Some (Some (low, high))
    | _, _ => Some None
    end;
  Some {| sortBy := sortBy;
          sortOrder := sortOrder;
          categoryIds := if Nat.ltb 0 (length categoryIdsFromUrl)
                         then Some categoryIdsFromUrl else None;
          priceRange := priceRangeVal |}.

(** [handleFilterChange], lines 141-160: the parameters pushed. *)
Definition handleFilterChange (newFiltersFromPanel : AppliedFiltersStateFromPanel)
  : URLSearchParams :=
  let queryParams : URLSearchParams := [] in
  let queryParams :=
    match priceRange newFiltersFromPanel with
    | Some (low, high) =>
        params_set "maxPrice" (Number_toString high)
          (params_set "minPrice" (Number_toString low) queryParams)
    | None => queryParams
    end in
  let queryParams :=
    match categoryIds newFiltersFromPanel with
    | Some ids =>
        if Nat.ltb 0 (length ids)
        then fold_left (fun qs catId => params_append "category" catId qs) ids queryParams
        else queryParams
    | None => queryParams
    end in
  let queryParams :=
    match or_undefined (sortBy newFiltersFromPanel) with
    | Some s => params_set "sortBy" s queryParams
    | None => queryParams
    end in
  let queryParams :=
    match or_undefined (sortOrder newFiltersFromPanel) with
    | Some s => params_set "sortOrder" s queryParams
    | None => queryParams
    end in
  params_set "page" "1" queryParams.

(** [handlePageChange], lines 162-166: the parameters pushed. *)
Definition handlePageChange (searchParams : URLSearchParams) (newPage : number)
  : URLSearchParams :=
  let queryParams : URLSearchParams := searchParams in
  params_set "page" (Number_toString newPage) queryParams.

(** [pageFromUrl], line 130: [parseInt(searchParams.get('page') || '1', 10)]. *)
Definition pageFromUrl (searchParams : URLSearchParams) : number :=
  parseInt (default "1" (or_undefined (params_get "page" searchParams))) (Some 10).

(** [AppliedFiltersForApi], lines 35-42, with the [limit] that
    [loadProducts] adds; the fields are prefixed because the panel's record
    has fields of the same names. *)
Record AppliedFiltersForApi : Type := mkServiceParams {
  api_page : number;
  api_limit : Z;
  api_categoryId : option string;
  api_minPrice : option number;
  api_maxPrice : option number;
  api_sortBy : option string;
  api_sortOrder : option string
}.

(** [serviceParams] of [loadProducts], lines 105-113. *)
Definition serviceParams (filtersToApply : AppliedFiltersStateFromPanel) (page : number)
  : AppliedFiltersForApi :=
  {| api_page := page;
     api_limit := 9;
     api_categoryId := categoryIds filtersToApply ≫= head;
     api_minPrice := fst <$> priceRange filtersToApply;
     api_maxPrice := snd <$> priceRange filtersToApply;
     api_sortBy := sortBy filtersToApply;
     api_sortOrder := sortOrder filtersToApply |}.

(** *** Pagination *)

(** Modelled from the spec: the [pagination] part of [PaginatedResponse] in
    '@/lib/types', with the fields the page reads. *)
Record Pagination : Type := mkPagination {
  page : Z;
  limit : Z;
  total : Z;
  totalPages : Z;
  hasPrevPage : bool;
  hasNextPage : bool
}.




(** What one index of [[...Array(totalPages)].map] renders, lines 232-253:
    a link, an ellipsis, or nothing. *)
Inductive page_entry : Type :=
| PaginationLink (pageNum : Z) (isActive : bool)
| PaginationEllipsis (i : nat).

Definition page_entry_at (p : Pagination) (i : nat) : option page_entry :=
  let pageNum := Z.of_nat i + 1 in
  if Z.leb (totalPages p) 5
     || Z.eqb pageNum 1 || Z.eqb pageNum (totalPages p)
     || (Z.leb (page p - 1) pageNum && Z.leb pageNum (page p + 1))
  then Some (PaginationLink pageNum (Z.eqb (page p) pageNum))
  else if Z.eqb pageNum (page p - 2) || Z.eqb pageNum (page p + 2)
  then Some (PaginationEllipsis i)
  else None.

(** Modelled from the spec: the [PaginatedResponse] of '@/lib/types', with
    what the page reads of it: [data.items] and [pagination]. *)
Record ProductsResponse : Type := mkResponse {
  items : list Product;
  pagination : option Pagination
}.

(** The entries between Previous and Next, lines 210-253.  [None] of the
    result says that no navigation is rendered: while loading, without a
    response or with a response without products (lines 210-214), without
    pagination or with a single page (line 221).  [Array(totalPages)]
    throws a [RangeError] from 2^32 on; below, the array has to fit the
    engine: [capacity] is the longest array it can make, and the outer
    [None] says that the render is beyond it. *)
Definition page_entries (capacity : Z) (isLoading : bool)
           (productsResponse : option ProductsResponse)
  : option (completion (option (list page_entry))) :=
  if isLoading then Some (Normal None)
  else
    match productsResponse with
    | Some response =>
        if Nat.ltb 0 (length (items response)) then
          match pagination response with
          | Some p =>
              if Z.ltb 1 (totalPages p)
              then if Z.leb (2 ^ 32) (totalPages p) then Some (Throw RangeError)
                   else if Z.ltb capacity (totalPages p) then None
                   else Some (Normal (Some (omap (page_entry_at p)
                                                 (seq 0 (Z.to_nat (totalPages p))))))
              else Some (Normal None)
          | None => Some (Normal None)
          end
        else Some (Normal None)
    | None => Some (Normal None)
    end.

(** The click on a page link, line 242: the parameters pushed. *)
Definition click_link (pageNum : Z) (searchParams : URLSearchParams) : URLSearchParams :=
  handlePageChange searchParams (Int pageNum).

(** The clicks on Previous and Next, lines 227 and 257: the parameters
    pushed, if any. *)
Definition click_previous (p : Pagination) (searchParams : URLSearchParams)
  : option URLSearchParams :=
  if hasPrevPage p then Some (handlePageChange searchParams (Int (page p - 1))) else None.

Definition click_next (p : Pagination) (searchParams : URLSearchParams)
  : option URLSearchParams :=
  if hasNextPage p then Some (handlePageChange searchParams (Int (page p + 1))) else None.

(** ** Vocabulary: the provider over time *)



(** ** Vocabulary: the address of the shop page *)

(** What reading back keeps of the filters: an empty category list and an
    empty sort field are read as absent. *)
Definition normal_filters (f : AppliedFiltersStateFromPanel) : AppliedFiltersStateFromPanel :=
  {| priceRange := priceRange f;
     categoryIds := match categoryIds f with
                    | Some [] => None
                    | other => other
                    end;
     sortBy := or_undefined (sortBy f);
     sortOrder := or_undefined (sortOrder f) |}.

Definition sample_pagination : Pagination :=
  {| page := 5; limit := 9; total := 86; totalPages := 10;
     hasPrevPage := true; hasNextPage := true |}.

Definition few_pagination : Pagination :=
  {| page := 2; limit := 9; total := 20; totalPages := 3;
     hasPrevPage := true; hasNextPage := true |}.

Definition few_response : ProductsResponse :=
  {| items := [p1; p3]; pagination := Some few_pagination |}.

Definition sample_response : ProductsResponse :=
  {| items := [p1]; pagination := Some sample_pagination |}.

(** The numbers that a page address carries unchanged: [NaN], and the
    integers that [parseInt] reads back exactly. *)
Definition safe_number (n : number) : Prop :=
  match n with
  | Int z => Z.abs z <= 2 ^ 53
  | NaN => True
  | Infinity _ => False
  end.

(** * Proofs *)

(** * Reading back what [JSON.stringify] wrote *)

Ltac each_char c := destruct c as [[] [] [] [] [] [] [] []].

Section Lexing.

Implicit Types (c : ascii) (r s : list ascii) (u : Decimal.uint).


Lemma closes_not_number r : closes r = true -> continues_number r = false.
Proof. destruct r as [|c r]; [done|]. each_char c; done. Qed.

Lemma closes_skip_ws r : closes r = true -> skip_ws r = r.
Proof. destruct r as [|c r]; [done|]. each_char c; done. Qed.

Lemma lex_digits_stop r :
  match r with c :: _ => is_digit c = false | [] => True end ->
  lex_digits r = (Decimal.Nil, r).
Proof. destruct r as [|c r]; [done|]. simpl. by intros ->. Qed.

Lemma lex_digits_digits u r :
  match r with c :: _ => is_digit c = false | [] => True end ->
  lex_digits (digits u ++ r) = (u, r).
Proof.
  intros Hr. induction u as [|u IH|u IH|u IH|u IH|u IH|u IH|u IH|u IH|u IH|u IH];
    [by apply lex_digits_stop|..];
    cbn [digits app lex_digits]; rewrite IH; reflexivity.
Qed.

Lemma digits_head u :
  u <> Decimal.Nil -> exists c t, digits u = c :: t /\ is_digit c = true.
Proof. destruct u; [done|..]; intros _; eexists _, _; (split; [reflexivity|done]). Qed.

(** [Pos.to_uint] writes no leading zero. *)
Lemma well_formed_to_uint p : well_formed_int (Pos.to_uint p) = true.
Proof.
  pose proof (DecimalPos.Unsigned.to_uint_nonnil p) as Hnil.
  pose proof (DecimalPos.Unsigned.to_uint_nonzero p) as Hzero.
  pose proof (DecimalPos.Unsigned.to_of (Pos.to_uint p)) as Hnorm.
  rewrite DecimalPos.Unsigned.of_to in Hnorm. cbn [N.to_uint] in Hnorm.
  destruct (Pos.to_uint p) as [|u| | | | | | | | | ] eqn:E; try done.
  destruct u; try done.
  all: rewrite unorm_D0 in Hnorm.
  all: match type of Hnorm with
       | Decimal.D0 ?d = _ =>
           assert (d <> Decimal.Nil) as Hd by done;
           pose proof (nb_digits_unorm d Hd) as Hlen;
           rewrite <- Hnorm in Hlen; cbn in Hlen; lia
       end.
Qed.








End Lexing.

Section Strings.

Implicit Types (c : ascii) (r t : list ascii) (s : string).



End Strings.

(** ** One value *)

Section Values.

Implicit Types (c : ascii) (r s : list ascii) (v x : value) (fuel : nat).







Lemma tail_closes_array l r : closes (array_tail l ++ "]"%char :: r) = true.
Proof. by destruct l. Qed.

Lemma tail_closes_object l r : closes (object_tail l ++ "}"%char :: r) = true.
Proof. by destruct l. Qed.






Lemma parse_elements_S fuel acc s :
  parse_elements (S fuel) acc s
  = '(v, r) ← parse_value fuel s;
    match skip_ws r with
    | [] => Fail
    | c :: r' =>
        if Ascii.eqb c "]" then Ok (JArray (acc ++ [v]), r')
        else if Ascii.eqb c "," then parse_elements fuel (acc ++ [v]) r'
        else Fail
    end.
Proof. reflexivity. Qed.

Lemma parse_members_S fuel acc s :
  parse_members (S fuel) acc s
  = r1 ← expect dquote s;
    '(k, r2) ← parse_chars r1;
    r3 ← expect ":"%char r2;
    '(v, r4) ← parse_value fuel r3;
    if is_index_key k then Unmodelled
    else
      match skip_ws r4 with
      | [] => Fail
      | c :: r' =>
          if Ascii.eqb c "}" then Ok (JObject (set_property k v acc), r')
          else if Ascii.eqb c "," then parse_members fuel (set_property k v acc) r'
          else Fail
      end.
Proof. reflexivity. Qed.





End Values.

Section RoundTrip.






End RoundTrip.

(** * The fuel of [parse_value] is enough *)

Section Fuel.

Implicit Types (c : ascii) (r s : list ascii) (v : value) (fuel : nat).

Lemma skip_ws_length s : (length (skip_ws s) <= length s)%nat.
Proof.
  induction s as [|c s IH]; cbn [skip_ws length]; [lia|].
  destruct (is_ws c); cbn [length]; lia.
Qed.

Lemma skip_ws_cons s c r : skip_ws s = c :: r -> (length r < length s)%nat.
Proof. intros E. pose proof (skip_ws_length s) as H. rewrite E in H. cbn in H. lia. Qed.

Lemma expect_length c s r : expect c s = Ok r -> (length r < length s)%nat.
Proof.
  unfold expect. destruct (skip_ws s) as [|c' r'] eqn:E; [done|].
  destruct (Ascii.eqb c' c); [|done]. intros [= <-]. by eapply skip_ws_cons.
Qed.

Lemma expect_fuel c s : expect c s <> Exhausted.
Proof. unfold expect. destruct (skip_ws s) as [|c' r']; [done|]. by destruct (Ascii.eqb c' c). Qed.

Lemma literal_length word v s v' r :
  word <> "" -> literal word v s = Ok (v', r) -> (length r < length s)%nat.
Proof.
  intros Hword. unfold literal. case_bool_decide as E; [|done]. intros [= _ <-].
  apply (f_equal length) in E. rewrite length_take in E. rewrite length_drop.
  destruct word; [done|]. cbn [chars list_ascii_of_string length] in *. lia.
Qed.

Lemma literal_fuel word v s : literal word v s <> Exhausted.
Proof. unfold literal. by case_bool_decide. Qed.

Lemma lex_digits_length s : (length (snd (lex_digits s)) <= length s)%nat.
Proof.
  induction s as [|c s IH]; cbn [lex_digits]; [done|].
  destruct (is_digit c); [|done]. destruct (lex_digits s). cbn [snd length] in *. lia.
Qed.

Lemma lex_fraction_length s f r :
  lex_fraction s = Ok (f, r) -> (length r <= length s)%nat.
Proof.
  destruct s as [|c s]; [by intros [= _ <-]|]. cbn [lex_fraction].
  destruct (Ascii.eqb c "."); [|by intros [= _ <-]].
  pose proof (lex_digits_length s) as H. destruct (lex_digits s) as [u r'].
  cbn [snd length] in *. destruct u; [done|..]; intros [= _ <-]; lia.
Qed.

Lemma lex_exponent_length s e r :
  lex_exponent s = Ok (e, r) -> (length r <= length s)%nat.
Proof.
  destruct s as [|c s]; [by intros [= _ <-]|]. cbn [lex_exponent].
  destruct (Ascii.eqb c "e" || Ascii.eqb c "E"); [|by intros [= _ <-]].
  destruct s as [|d s]; [done|].
  pose proof (lex_digits_length s) as H. pose proof (lex_digits_length (d :: s)) as H'.
  destruct (Ascii.eqb d "-"); [|destruct (Ascii.eqb d "+")].
  all: match goal with
       | |- context [lex_digits ?l] => destruct (lex_digits l) as [u r']
       end.
  all: cbn [snd length] in *; destruct u; [done|..]; intros [= _ <-]; lia.
Qed.

Lemma parse_number_length (negative : bool) s v r :
  parse_number negative s = Ok (v, r) -> (length r <= length s)%nat.
Proof.
  unfold parse_number. pose proof (lex_digits_length s) as H.
  destruct (lex_digits s) as [u r']. destruct (negb _); [done|].
  destruct (lex_fraction r') as [[f r1]| | |] eqn:Hf; try done.
  apply lex_fraction_length in Hf. cbn [mbind parsed_bind].
  destruct (lex_exponent r1) as [[e r2]| | |] eqn:He; try done.
  apply lex_exponent_length in He. cbn [mbind parsed_bind snd] in *.
  intros [= _ <-]. lia.
Qed.

Lemma parse_number_digit_length c s v r :
  is_digit c = true -> parse_number false (c :: s) = Ok (v, r) ->
  (length r <= length s)%nat.
Proof.
  unfold parse_number. cbn [lex_digits]. intros ->.
  pose proof (lex_digits_length s) as H. destruct (lex_digits s) as [u r'].
  destruct (negb _); [done|].
  destruct (lex_fraction r') as [[f r1]| | |] eqn:Hf; try done.
  apply lex_fraction_length in Hf. cbn [mbind parsed_bind].
  destruct (lex_exponent r1) as [[e r2]| | |] eqn:He; try done.
  apply lex_exponent_length in He. cbn [mbind parsed_bind snd] in *.
  intros [= _ <-]. lia.
Qed.

Lemma lex_fraction_fuel s : lex_fraction s <> Exhausted.
Proof.
  destruct s as [|c s]; [done|]. cbn [lex_fraction]. destruct (Ascii.eqb c "."); [|done].
  destruct (lex_digits s) as [[] r]; done.
Qed.

Lemma lex_exponent_fuel s : lex_exponent s <> Exhausted.
Proof.
  destruct s as [|c s]; [done|]. cbn [lex_exponent].
  destruct (Ascii.eqb c "e" || Ascii.eqb c "E"); [|done].
  destruct s as [|d s]; [done|].
  destruct (Ascii.eqb d "-"); [|destruct (Ascii.eqb d "+")].
  all: match goal with
       | |- context [lex_digits ?l] => destruct (lex_digits l) as [[] r']
       end; done.
Qed.

Lemma parse_number_fuel (negative : bool) s : parse_number negative s <> Exhausted.
Proof.
  unfold parse_number. destruct (lex_digits s) as [u r]. destruct (negb _); [done|].
  pose proof (lex_fraction_fuel r) as Hf.
  destruct (lex_fraction r) as [[f r1]| | |]; try done. cbn [mbind parsed_bind].
  pose proof (lex_exponent_fuel r1) as He.
  destruct (lex_exponent r1) as [[e r2]| | |]; done.
Qed.

Lemma bind_inv {A B} (p : parsed A) (k : A -> parsed B) (b : B) :
  p ≫= k = Ok b -> exists a, p = Ok a /\ k a = Ok b.
Proof. destruct p; try done. eauto. Qed.

Lemma bind_fuel {A B} (p : parsed A) (k : A -> parsed B) :
  p <> Exhausted -> (forall a, p = Ok a -> k a <> Exhausted) -> p ≫= k <> Exhausted.
Proof. destruct p; try done. intros _ H. by apply H. Qed.

Lemma parse_chars_eq s :
  parse_chars s
  = match s with
    | [] => Fail
    | c :: r =>
        if Ascii.eqb c dquote then Ok (EmptyString, r)
        else if Ascii.eqb c backslash then
          match r with
          | [] => Fail
          | e :: r1 =>
              let unescaped (c : ascii) :=
                '(str, r') ← parse_chars r1; Ok (String c str, r') in
              if Ascii.eqb e dquote then unescaped dquote
              else if Ascii.eqb e backslash then unescaped backslash
              else if Ascii.eqb e "/" then unescaped "/"%char
              else if Ascii.eqb e "b" then unescaped (ascii_of_N 8)
              else if Ascii.eqb e "f" then unescaped (ascii_of_N 12)
              else if Ascii.eqb e "n" then unescaped (ascii_of_N 10)
              else if Ascii.eqb e "r" then unescaped (ascii_of_N 13)
              else if Ascii.eqb e "t" then unescaped (ascii_of_N 9)
              else if Ascii.eqb e "u" then
                match r1 with
                | h1 :: h2 :: h3 :: h4 :: r2 =>
                    match hex4 h1 h2 h3 h4 with
                    | Some n =>
                        if N.ltb n 256
                        then '(str, r') ← parse_chars r2; Ok (String (ascii_of_N n) str, r')
                        else Unmodelled
                    | None => Fail
                    end
                | _ => Fail
                end
              else Fail
          end
        else if N.ltb (N_of_ascii c) 32 then Fail
        else '(str, r') ← parse_chars r; Ok (String c str, r')
    end.
Proof. by destruct s. Qed.

Lemma consumes_leaf {A} s (res : parsed (A * list ascii)) :
  res = Fail \/ res = Unmodelled -> consumes s res.
Proof. intros [-> | ->]; (split; [done|intros ? ? [=]]). Qed.

Lemma consumes_Ok {A} s (a : A) r : (length r < length s)%nat -> consumes s (Ok (a, r)).
Proof. intros H. split; [done|]. by intros ? ? [= _ <-]. Qed.

Lemma consumes_weaken {A} s t (res : parsed (A * list ascii)) :
  consumes t res -> (length t <= length s)%nat -> consumes s res.
Proof. intros [Hf Hl] Hlen. split; [done|]. intros a r Hr. apply Hl in Hr. lia. Qed.

Lemma consumes_char s t c :
  consumes t (parse_chars t) -> (length t <= length s)%nat ->
  consumes s ('(str, r') ← parse_chars t; Ok (String c str, r')).
Proof.
  intros [Hf Hl] Hlen.
  destruct (parse_chars t) as [[str' r']| | |];
    [|apply consumes_leaf; by left|apply consumes_leaf; by right|done].
  apply consumes_Ok. specialize (Hl _ _ eq_refl). lia.
Qed.

(** A string literal takes its closing quote at least, and needs no
    fuel. *)
Lemma parse_chars_consumes s : consumes s (parse_chars s).
Proof.
  remember (length s) as n eqn:Hn. revert s Hn.
  induction n as [n IH] using lt_wf_ind. intros s ->.
  rewrite parse_chars_eq. destruct s as [|c r]; [apply consumes_leaf; by left|].
  cbv zeta.
  repeat match goal with
         | |- consumes _ (match ?x with _ => _ end) => destruct x
         end;
    try (apply consumes_leaf; by auto);
    try (apply consumes_Ok; cbn [length]; lia);
    try (apply consumes_char; [eapply IH; [|reflexivity]|]; cbn [length]; lia).
Qed.

Lemma parse_value_S fuel s :
  parse_value (S fuel) s
  = match skip_ws s with
    | [] => Fail
    | c :: r =>
        if Ascii.eqb c "n" then literal "null" JNull (c :: r)
        else if Ascii.eqb c "t" then literal "true" (JBool true) (c :: r)
        else if Ascii.eqb c "f" then literal "false" (JBool false) (c :: r)
        else if Ascii.eqb c dquote then
          '(str, r') ← parse_chars r; Ok (JString str, r')
        else if Ascii.eqb c "-" then parse_number true r
        else if is_digit c then parse_number false (c :: r)
        else if Ascii.eqb c "[" then
          match expect "]"%char r with
          | Ok r' => Ok (JArray [], r')
          | _ => parse_elements fuel [] r
          end
        else if Ascii.eqb c "{" then
          match expect "}"%char r with
          | Ok r' => Ok (JObject [], r')
          | _ => parse_members fuel [] r
          end
        else Fail
    end.
Proof. reflexivity. Qed.

(** Whatever the fuel, a value that is read takes at least one
    character. *)
Lemma parse_value_length fuel :
  (forall s v r, parse_value fuel s = Ok (v, r) -> (length r < length s)%nat)
  /\ (forall acc s v r, parse_elements fuel acc s = Ok (v, r) -> (length r < length s)%nat)
  /\ (forall acc s v r, parse_members fuel acc s = Ok (v, r) -> (length r < length s)%nat).
Proof.
  induction fuel as [|fuel (IHv & IHe & IHm)]; [by repeat split|].
  split; [|split].
  - intros s v r. rewrite parse_value_S.
    destruct (skip_ws s) as [|c r0] eqn:Hs; [done|]. apply skip_ws_cons in Hs.
    repeat match goal with
           | |- (if ?b then _ else _) = _ -> _ => destruct b eqn:?
           end.
    + intros H%literal_length; [cbn [length] in H; lia|done].
    + intros H%literal_length; [cbn [length] in H; lia|done].
    + intros H%literal_length; [cbn [length] in H; lia|done].
    + intros ([str r'] & Hchars & [= _ <-])%bind_inv.
      apply parse_chars_consumes in Hchars. lia.
    + intros H%parse_number_length. lia.
    + intros H%parse_number_digit_length; [cbn [length] in H; lia|done].
    + destruct (expect "]"%char r0) as [r'| | |] eqn:He;
        [apply expect_length in He; intros [= _ <-]; lia|..];
        intros H%IHe; lia.
    + destruct (expect "}"%char r0) as [r'| | |] eqn:He;
        [apply expect_length in He; intros [= _ <-]; lia|..];
        intros H%IHm; lia.
    + done.
  - intros acc s v r. rewrite parse_elements_S.
    intros ([x r1] & Hx%IHv & Hrest)%bind_inv.
    destruct (skip_ws r1) as [|c r'] eqn:Hs; [done|]. apply skip_ws_cons in Hs.
    destruct (Ascii.eqb c "]"); [injection Hrest as _ <-; lia|].
    destruct (Ascii.eqb c ","); [|done]. apply IHe in Hrest. lia.
  - intros acc s v r. rewrite parse_members_S.
    intros (r1 & H1%expect_length & Hrest)%bind_inv.
    apply bind_inv in Hrest as ([k r2] & H2%parse_chars_consumes & Hrest).
    apply bind_inv in Hrest as (r3 & H3%expect_length & Hrest).
    apply bind_inv in Hrest as ([x r4] & H4%IHv & Hrest).
    destruct (is_index_key k); [done|].
    destruct (skip_ws r4) as [|c r'] eqn:Hs; [done|]. apply skip_ws_cons in Hs.
    destruct (Ascii.eqb c "}"); [injection Hrest as _ <-; lia|].
    destruct (Ascii.eqb c ","); [|done]. apply IHm in Hrest. lia.
Qed.

Lemma parse_chars_fuel s : parse_chars s <> Exhausted.
Proof. apply parse_chars_consumes. Qed.

(** A fuel above twice the length of the text is never used up. *)
Lemma parse_fuel fuel :
  (forall s, (2 * length s < fuel)%nat -> parse_value fuel s <> Exhausted)
  /\ (forall acc s, (2 * length s + 1 < fuel)%nat -> parse_elements fuel acc s <> Exhausted)
  /\ (forall acc s, (2 * length s + 1 < fuel)%nat -> parse_members fuel acc s <> Exhausted).
Proof.
  induction fuel as [|fuel (IHv & IHe & IHm)]; [repeat split; intros; lia|].
  destruct (parse_value_length fuel) as (Lv & _ & _).
  split; [|split].
  - intros s Hfuel. rewrite parse_value_S.
    destruct (skip_ws s) as [|c r0] eqn:Hs; [done|]. apply skip_ws_cons in Hs.
    repeat match goal with
           | |- (if ?b then _ else _) <> _ => destruct b
           end;
      try apply literal_fuel; try apply parse_number_fuel; try done.
    + apply bind_fuel; [apply parse_chars_fuel|]. by intros [str r'] _.
    + destruct (expect "]"%char r0) as [r'| | |] eqn:He;
        try done; apply IHe; lia.
    + destruct (expect "}"%char r0) as [r'| | |] eqn:He;
        try done; apply IHm; lia.
  - intros acc s Hfuel. rewrite parse_elements_S.
    apply bind_fuel; [apply IHv; lia|]. intros [x r1] Hx%Lv.
    destruct (skip_ws r1) as [|c r'] eqn:Hs; [done|]. apply skip_ws_cons in Hs.
    destruct (Ascii.eqb c "]"); [done|].
    destruct (Ascii.eqb c ","); [|done]. apply IHe. lia.
  - intros acc s Hfuel. rewrite parse_members_S.
    apply bind_fuel; [apply expect_fuel|]. intros r1 H1%expect_length.
    apply bind_fuel; [apply parse_chars_fuel|]. intros [k r2] H2%parse_chars_consumes.
    apply bind_fuel; [apply expect_fuel|]. intros r3 H3%expect_length.
    apply bind_fuel; [apply IHv; lia|]. intros [x r4] H4%Lv.
    destruct (is_index_key k); [done|].
    destruct (skip_ws r4) as [|c r'] eqn:Hs; [done|]. apply skip_ws_cons in Hs.
    destruct (Ascii.eqb c "}"); [done|].
    destruct (Ascii.eqb c ","); [|done]. apply IHm. lia.
Qed.

Lemma parse_value_fuel s : parse_value (S (2 * length s)) s <> Exhausted.
Proof. apply parse_fuel. lia. Qed.

(** [JSON.parse] is silent only on a text that is outside the model. *)
Theorem JSON_parse_None text :
  JSON_parse text = None ->
  parse_value (S (2 * length (chars text))) (chars text) = Unmodelled.
Proof.
  unfold JSON_parse. pose proof (parse_value_fuel (chars text)) as Hfuel.
  destruct (parse_value _ (chars text)) as [[v r]| | |]; try done.
  by destruct (skip_ws r).
Qed.

End Fuel.

(** * The cart updaters *)

Section UpdaterFacts.

Implicit Types (product : Product) (item : CartItem) (items : list CartItem).
Implicit Types (productId : string) (qty : Z).

Lemma in_cart_nil productId : ~ in_cart productId [].
Proof. intros (item & Hin & _). by apply elem_of_nil in Hin. Qed.

Lemma in_cart_cons productId item items :
  in_cart productId (item :: items)
  <-> id item = productId \/ in_cart productId items.
Proof.
  unfold in_cart. split.
  - intros (x & [-> | Hin]%elem_of_cons & Hid); eauto.
  - intros [Hid | (x & Hin & Hid)]; [exists item | exists x];
      (split; [|done]); [by left | by right].
Qed.

Lemma in_cart_app productId items items' :
  in_cart productId (items ++ items')
  <-> in_cart productId items \/ in_cart productId items'.
Proof.
  unfold in_cart. setoid_rewrite elem_of_app. split.
  - intros (x & [Hin | Hin] & Hid); eauto.
  - intros [(x & Hin & Hid) | (x & Hin & Hid)]; eauto.
Qed.

Lemma in_cart_ids productId items :
  in_cart productId items <-> productId ∈ ids items.
Proof.
  unfold ids. induction items as [|item items IH]; cbn [map].
  - split; [intros H; by apply in_cart_nil in H | by intros ?%elem_of_nil].
  - rewrite in_cart_cons, elem_of_cons, IH. intuition congruence.
Qed.

(** What [find] returns tells whether the identifier is in the cart. *)
Lemma find_in_cart productId items :
  match find (fun item => bool_decide (id item = productId)) items with
  | Some _ => in_cart productId items
  | None => ~ in_cart productId items
  end.
Proof.
  induction items as [|item items IH]; cbn [find]; [apply in_cart_nil|].
  case_bool_decide as Hid.
  - apply in_cart_cons. by left.
  - destruct (find _ items); rewrite in_cart_cons; tauto.
Qed.

Lemma in_cart_dec productId items :
  in_cart productId items \/ ~ in_cart productId items.
Proof.
  pose proof (find_in_cart productId items) as H.
  destruct (find _ items); [by left | by right].
Qed.

Lemma map_lookup {A B} (f : A -> B) (l : list A) (i : nat) :
  map f l !! i = f <$> (l !! i).
Proof. revert i; induction l as [|x l IH]; intros [|i]; cbn; auto. Qed.

Lemma map_if_absent productId (f : CartItem -> CartItem) items :
  ~ in_cart productId items ->
  map (fun item => if bool_decide (id item = productId) then f item else item) items
  = items.
Proof.
  induction items as [|item items IH]; [done|]. rewrite in_cart_cons. intros Hnot.
  cbn [map]. rewrite bool_decide_false by tauto. rewrite IH by tauto. done.
Qed.

(** Changing quantities leaves the identifiers as they are. *)
Lemma map_if_ids productId (f : CartItem -> Z) items :
  ids (map (fun item => if bool_decide (id item = productId)
                        then spread_item item (f item) else item) items)
  = ids items.
Proof.
  unfold ids. induction items as [|item items IH]; [done|]. cbn [map]. rewrite IH.
  by case_bool_decide.
Qed.

Lemma addToCart_present product qty items :
  in_cart (id product) items ->
  addToCart product qty items
  = map (fun item =>
           if bool_decide (id item = id product)
           then spread_item item (Z.max 0 (quantity item + qty)) else item) items.
Proof.
  intros Hin. unfold addToCart.
  pose proof (find_in_cart (id product) items) as Hfind.
  by destruct (find _ items).
Qed.

Lemma addToCart_absent product qty items :
  ~ in_cart (id product) items ->
  addToCart product qty items = items ++ [spread_product product (Z.max 1 qty)].
Proof.
  intros Hin. unfold addToCart.
  pose proof (find_in_cart (id product) items) as Hfind.
  by destruct (find _ items).
Qed.

Lemma removeFromCart_absent productId items :
  ~ in_cart productId items -> removeFromCart productId items = items.
Proof.
  induction items as [|item items IH]; [done|]. rewrite in_cart_cons. intros Hnot.
  unfold removeFromCart in *. cbn [List.filter].
  rewrite bool_decide_false by tauto. cbn [negb]. by rewrite IH by tauto.
Qed.

Lemma elem_of_removeFromCart productId item items :
  item ∈ removeFromCart productId items <-> item ∈ items /\ id item <> productId.
Proof.
  unfold removeFromCart. rewrite !list_elem_of_In, filter_In.
  rewrite negb_true_iff, bool_decide_eq_false. done.
Qed.

Lemma removeFromCart_removes productId items :
  ~ in_cart productId (removeFromCart productId items).
Proof. intros (item & Hin%elem_of_removeFromCart & Hid). tauto. Qed.

Lemma removeFromCart_sublist productId items :
  sublist (removeFromCart productId items) items.
Proof.
  induction items as [|item items IH]; [constructor|].
  unfold removeFromCart in *. cbn [List.filter].
  destruct (negb _); by constructor.
Qed.

Lemma removeFromCart_unique productId items :
  NoDup (ids items) -> in_cart productId items ->
  (length (removeFromCart productId items) + 1 = length items)%nat.
Proof.
  induction items as [|item items IH]; [intros _ H; by apply in_cart_nil in H|].
  change (ids (item :: items)) with (id item :: ids items).
  rewrite NoDup_cons, in_cart_cons, <- in_cart_ids.
  intros [Hfresh Hnodup] Hin. unfold removeFromCart in *. cbn [List.filter].
  case_bool_decide as Hid; cbn [negb length].
  - subst productId. fold (removeFromCart (id item) items).
    rewrite removeFromCart_absent by done. lia.
  - rewrite <- IH by tauto. lia.
Qed.

Lemma cartTotal_sum items : cartTotal items = sum_over line_total items.
Proof.
  unfold cartTotal.
  enough (forall acc, fold_left (fun total item => total + price item * quantity item)
                        items acc = acc + sum_over line_total items) as H
      by (rewrite H; lia).
  induction items as [|item items IH]; intros acc; cbn [fold_left sum_over]; [lia|].
  rewrite IH. unfold line_total. lia.
Qed.

Lemma itemCount_sum items : itemCount items = sum_over quantity items.
Proof.
  unfold itemCount.
  enough (forall acc, fold_left (fun count item => count + quantity item)
                        items acc = acc + sum_over quantity items) as H
      by (rewrite H; lia).
  induction items as [|item items IH]; intros acc; cbn [fold_left sum_over]; [lia|].
  rewrite IH. lia.
Qed.

Lemma sum_over_removeFromCart (f : CartItem -> Z) productId items :
  sum_over f (removeFromCart productId items)
  = sum_over (fun item => if bool_decide (id item = productId) then 0 else f item) items.
Proof.
  induction items as [|item items IH]; [done|].
  unfold removeFromCart in *. cbn [List.filter sum_over].
  case_bool_decide; cbn [negb sum_over]; rewrite IH; lia.
Qed.

End UpdaterFacts.

(** ** Sample data *)

Lemma sample_cart_p1 : in_cart "p1" sample_cart.
Proof. exists {| fields := p1; quantity := 2 |}. split; [left|reflexivity]. Qed.

Lemma sample_cart_p3 : ~ in_cart "p3" sample_cart.
Proof.
  rewrite in_cart_ids. cbn [ids map sample_cart fields id p1 p2].
  rewrite !elem_of_cons, elem_of_nil. intros [?|[?|[]]]; discriminate.
Qed.

(** * The claims *)



(** C2: [updateQuantity(productId, q)] is [removeFromCart(productId)] when
    [q <= 0], after which no line item has that identifier; when [q > 0] it
    keeps the length and order of the cart, gives the quantity [q] to every
    line item with that identifier and leaves the others alone, so a cart
    without the identifier is unchanged and nothing is inserted. *)
Theorem updateQuantity_spec (productId : string) (qty : Z) (prevItems : list CartItem) :
  (qty <= 0 ->
   updateQuantity productId qty prevItems = removeFromCart productId prevItems
   /\ ~ in_cart productId (updateQuantity productId qty prevItems))
  /\ (0 < qty ->
      length (updateQuantity productId qty prevItems) = length prevItems
      /\ forall (i : nat) (item : CartItem),
          prevItems !! i = Some item ->
          updateQuantity productId qty prevItems !! i
          = Some (if bool_decide (id item = productId)
                  then {| fields := fields item; quantity := qty |}
                  else item))
  /\ (0 < qty -> ~ in_cart productId prevItems ->
      updateQuantity productId qty prevItems = prevItems).
Proof.
  unfold updateQuantity. split; [|split].
  - intros Hq. rewrite (proj2 (Z.leb_le qty 0) Hq).
    split; [reflexivity|apply removeFromCart_removes].
  - intros Hq. rewrite (proj2 (Z.leb_gt qty 0) Hq). split; [apply length_map|].
    intros i item Hi. rewrite map_lookup, Hi. reflexivity.
  - intros Hq Hin. rewrite (proj2 (Z.leb_gt qty 0) Hq). by apply map_if_absent.
Qed.

Lemma updateQuantity_spec_witness :
  (updateQuantity "p1" (-5) sample_cart = removeFromCart "p1" sample_cart
   /\ ~ in_cart "p1" (updateQuantity "p1" (-5) sample_cart))
  /\ updateQuantity "p1" 7 sample_cart !! 0%nat = Some {| fields := p1; quantity := 7 |}
  /\ updateQuantity "p3" 7 sample_cart = sample_cart.
Proof.
  destruct (updateQuantity_spec "p1" (-5) sample_cart) as [Hremove _].
  destruct (updateQuantity_spec "p1" 7 sample_cart) as (_ & Hset & _).
  destruct (updateQuantity_spec "p3" 7 sample_cart) as (_ & _ & Hnoop).
  split; [apply Hremove; lia|]. split.
  - apply (proj2 (Hset ltac:(lia)) 0%nat {| fields := p1; quantity := 2 |}). reflexivity.
  - apply Hnoop; [lia|exact sample_cart_p3].
Defined.

(** C9: [removeFromCart(productId)] on an identifier that is not in the
    cart returns the cart as it is (same line items, same order, same totals,
    same context value), and there is no error to raise; in general it keeps,
    in order, exactly the line items with another identifier, which is one
    line item fewer when identifiers are unique and the identifier is
    present. *)
Theorem removeFromCart_spec (productId : string) (items : list CartItem) :
  (~ in_cart productId items ->
   removeFromCart productId items = items
   /\ cartTotal (removeFromCart productId items) = cartTotal items
   /\ itemCount (removeFromCart productId items) = itemCount items
   /\ forall st, cartItems st = items ->
        provided (setCartItems (removeFromCart productId) st) = provided st)
  /\ (forall item : CartItem,
        item ∈ removeFromCart productId items <-> item ∈ items /\ id item <> productId)
  /\ sublist (removeFromCart productId items) items
  /\ (NoDup (ids items) -> in_cart productId items ->
      (length (removeFromCart productId items) + 1 = length items)%nat).
Proof.
  split; [|split; [|split]].
  - intros Hin. rewrite removeFromCart_absent by done. repeat split.
    intros st <-. unfold provided, setCartItems, persistence_effect.
    destruct (hasMounted st) eqn:E; cbn; rewrite ?E, removeFromCart_absent by done; done.
  - intros item. apply elem_of_removeFromCart.
  - apply removeFromCart_sublist.
  - apply removeFromCart_unique.
Qed.

Lemma removeFromCart_spec_witness :
  removeFromCart "p3" sample_cart = sample_cart
  /\ (length (removeFromCart "p1" sample_cart) + 1 = length sample_cart)%nat.
Proof.
  split.
  - exact (proj1 (proj1 (removeFromCart_spec "p3" sample_cart) sample_cart_p3)).
  - apply (proj2 (proj2 (proj2 (removeFromCart_spec "p1" sample_cart)))).
    + cbn [ids map sample_cart fields id p1 p2]. repeat constructor;
        rewrite ?elem_of_cons, ?elem_of_nil; intuition discriminate.
    + exact sample_cart_p1.
Defined.

(** C10: [useCart] throws [Error('useCart must be used within a
    CartProvider')] when the context is undefined and returns the context
    value otherwise. *)
Theorem useCart_spec :
  useCart None = Throw (Error "useCart must be used within a CartProvider")
  /\ forall context : CartContextType, useCart (Some context) = Normal context.
Proof. split; [reflexivity|]. intros context. reflexivity. Qed.

(** ** Quantities in reachable carts *)

Section Quantities.

Implicit Types (product : Product) (item : CartItem) (items : list CartItem).

Lemma addToCart_nonneg product qty items :
  Forall (fun item => 0 <= quantity item) items ->
  Forall (fun item => 0 <= quantity item) (addToCart product qty items).
Proof.
  intros Hitems. destruct (in_cart_dec (id product) items) as [Hin|Hin].
  - rewrite addToCart_present by done. clear Hin.
    induction Hitems as [|item items Hq _ IH]; cbn [map]; constructor; [|exact IH].
    case_bool_decide; cbn [spread_item quantity]; lia.
  - rewrite addToCart_absent by done. apply Forall_app. split; [done|].
    repeat constructor. cbn. lia.
Qed.

Lemma removeFromCart_Forall (P : CartItem -> Prop) productId items :
  Forall P items -> Forall P (removeFromCart productId items).
Proof.
  rewrite !Forall_forall. intros H item [Hin _]%elem_of_removeFromCart. auto.
Qed.

Lemma updateQuantity_nonneg productId qty items :
  Forall (fun item => 0 <= quantity item) items ->
  Forall (fun item => 0 <= quantity item) (updateQuantity productId qty items).
Proof.
  intros Hitems. unfold updateQuantity. destruct (Z.leb_spec qty 0) as [Hq|Hq].
  - by apply removeFromCart_Forall.
  - induction Hitems as [|item items Hi _ IH]; cbn [map]; constructor; [|exact IH].
    case_bool_decide; cbn [spread_item quantity]; lia.
Qed.

Lemma reachable_nonneg items :
  reachable items -> Forall (fun item => 0 <= quantity item) items.
Proof.
  induction 1 as [|product qty items _ IH|productId items _ IH
                 |productId qty items _ IH|items _ IH].
  - constructor.
  - by apply addToCart_nonneg.
  - by apply removeFromCart_Forall.
  - by apply updateQuantity_nonneg.
  - constructor.
Qed.

Lemma addToCart_keeps product qty items :
  (length items <= length (addToCart product qty items))%nat
  /\ forall productId, in_cart productId items ->
       in_cart productId (addToCart product qty items).
Proof.
  destruct (in_cart_dec (id product) items) as [Hin|Hin].
  - rewrite addToCart_present by done. rewrite length_map. split; [lia|].
    intros productId. by rewrite !in_cart_ids, map_if_ids.
  - rewrite addToCart_absent by done. rewrite length_app. split; [lia|].
    intros productId Hp. apply in_cart_app. by left.
Qed.

End Quantities.

(** ** Repeated additions of one product *)

Section Calls.

Implicit Types (product : Product) (item : CartItem) (items : list CartItem).
Implicit Types (calls : list (Product * Z)).




Lemma with_id_last productId item items :
  ~ in_cart productId items -> id item = productId ->
  with_id productId (items ++ [item]) = [item].
Proof.
  intros Hfresh Hid. unfold with_id. rewrite List.filter_app. cbn [List.filter].
  rewrite bool_decide_true by done.
  enough (List.filter (fun item : CartItem => bool_decide (id item = productId)) items = [])
    as -> by done.
  induction items as [|x items IH]; [done|]. rewrite in_cart_cons in Hfresh.
  cbn [List.filter]. rewrite bool_decide_false by tauto. apply IH. tauto.
Qed.

End Calls.




(** * The provider as it runs: numbers *)

Section Doubles.

Implicit Types (x y q : double).

Lemma SFltb_SFleb x y : SFltb x y = true -> SFleb x y = true.
Proof. unfold SFltb, SFleb. by destruct (SFcompare x y) as [[]|]. Qed.

(** [Math.max(a, b)] is NaN or at least [a]. *)
Lemma Math_max_lower x y :
  SFleb x x = true ->
  is_NaN (Math_max x y) = true \/ SFleb x (Math_max x y) = true.
Proof.
  intros Hx. unfold Math_max.
  destruct (is_NaN x || is_NaN y); [by left|]. right.
  assert (SFleb x (if SFltb x y then y else x) = true) as Hmax.
  { destruct (SFltb x y) eqn:E; [by apply SFltb_SFleb|done]. }
  destruct x as [[]|[]| |[] m e], y as [[]|[]| |[] m' e']; done.
Qed.

Lemma Math_max_zero x :
  is_NaN (Math_max (S754_zero false) x) = true
  \/ not_negative (Math_max (S754_zero false) x).
Proof. by apply Math_max_lower. Qed.

Lemma Math_max_one x :
  is_NaN (Math_max (double_of_Z 1) x) = true
  \/ SFleb (double_of_Z 1) (Math_max (double_of_Z 1) x) = true.
Proof. by apply Math_max_lower. Qed.

Lemma above_one x : SFleb (double_of_Z 1) x = true -> not_negative x.
Proof.
  change (double_of_Z 1) with (S754_finite false 4503599627370496 (-52)).
  unfold not_negative. by destruct x as [[]|[]| |[] m e].
Qed.

(** What [updateQuantity] keeps: a quantity that is not [<= 0]. *)
Lemma not_below_zero x :
  SFleb x (S754_zero false) = false -> is_NaN x = true \/ not_negative x.
Proof. unfold not_negative. destruct x as [[]|[]| |[] m e]; cbn; auto. Qed.

Lemma not_negative_not_NaN x : not_negative x -> is_NaN x = false.
Proof. by destruct x. Qed.

(** Rounding gives no NaN. *)
Lemma shr_1_nonneg mrs : 0 <= shr_m mrs -> 0 <= shr_m (shr_1 mrs).
Proof. destruct mrs as [[|[]|[]] r s]; cbn; lia. Qed.

Lemma iter_shr_1_nonneg p mrs :
  0 <= shr_m mrs -> 0 <= shr_m (SpecFloat.iter_pos shr_1 p mrs).
Proof.
  revert mrs. induction p as [p IH|p IH|]; intros mrs Hm; cbn [SpecFloat.iter_pos].
  - by apply IH, IH, shr_1_nonneg.
  - by apply IH, IH.
  - by apply shr_1_nonneg.
Qed.

Lemma shr_fexp_nonneg m e l :
  0 <= m -> 0 <= shr_m (fst (shr_fexp 53 1024 m e l)).
Proof.
  intros Hm. unfold shr_fexp, shr.
  assert (0 <= shr_m (shr_record_of_loc m l)) as H0 by (by destruct l as [|[]]).
  destruct (fexp 53 1024 (Zdigits2 m + e) - e); cbn [fst]; try done.
  by apply iter_shr_1_nonneg.
Qed.

Lemma binary_round_aux_not_NaN (s : bool) m e l :
  0 <= m -> is_NaN (binary_round_aux 53 1024 s m e l) = false.
Proof.
  intros Hm. unfold binary_round_aux.
  pose proof (shr_fexp_nonneg m e l Hm) as H1.
  destruct (shr_fexp 53 1024 m e l) as [mrs' e']. cbn [fst] in H1.
  assert (0 <= round_nearest_even (shr_m mrs') (loc_of_shr_record mrs')) as H2.
  { unfold round_nearest_even.
    destruct (loc_of_shr_record mrs') as [|[]]; try done; [|lia].
    destruct (Z.even (shr_m mrs')); lia. }
  pose proof (shr_fexp_nonneg _ e' loc_Exact H2) as H3.
  destruct (shr_fexp 53 1024 _ e' loc_Exact) as [mrs'' e'']. cbn [fst] in H3.
  destruct (shr_m mrs''); [done| |lia]. by destruct (e'' <=? 1024 - 53)%Z.
Qed.

Lemma binary_normalize_not_NaN m e (s : bool) :
  is_NaN (binary_normalize 53 1024 m e s) = false.
Proof.
  destruct m; [done|..]; cbn [binary_normalize]; unfold binary_round;
    destruct (shl_align _ _ _); by apply binary_round_aux_not_NaN.
Qed.

(** A sum is NaN only from NaN or from infinities of opposite signs. *)
Lemma double_add_not_NaN x q :
  not_negative x -> is_finite q = true -> is_NaN (double_add x q) = false.
Proof.
  unfold not_negative, double_add.
  destruct x as [[]|[]| |[] m e], q as [[]|[]| |s' m' e']; try done.
  intros _ _. cbn [SFadd]. apply binary_normalize_not_NaN.
Qed.

End Doubles.

(** * The provider as it runs: line items *)

Section Results.

Context {A B : Type}.
Implicit Types (f : A -> Js.result B) (g : A -> Js.result bool) (l : list A).

Lemma bind_Normal (r : Js.result A) (k : A -> Js.result B) b :
  Js.bind r k = Some (Normal b) <-> exists a, r = Some (Normal a) /\ k a = Some (Normal b).
Proof.
  split.
  - destruct r as [[a|e]|]; try done. cbn. eauto.
  - by intros (a & -> & H).
Qed.

Lemma mapM_Forall2 f l (l' : list B) :
  Js.mapM f l = Some (Normal l') <-> Forall2 (fun a b => f a = Some (Normal b)) l l'.
Proof.
  revert l'. induction l as [|a l IH]; intros l'; cbn [Js.mapM].
  - split; [intros [= <-]; constructor|by inversion 1].
  - split.
    + destruct (f a) as [[b|e]|] eqn:Ha; try done. cbn [Js.bind].
      destruct (Js.mapM f l) as [[bs|e]|]; try done. cbn. intros [= <-].
      constructor; [done|]. by apply IH.
    + inversion 1 as [|? b ? bs Ha Hl]; subst. rewrite Ha. cbn [Js.bind].
      apply IH in Hl. by rewrite Hl.
Qed.

Lemma mapM_total f l :
  Forall (fun a => exists b, f a = Some (Normal b)) l ->
  exists l' : list B, Js.mapM f l = Some (Normal l').
Proof.
  induction 1 as [|a l [b Ha] _ [l' IH]]; [by exists []|].
  exists (b :: l'). cbn [Js.mapM]. by rewrite Ha, IH.
Qed.

Lemma filterM_defined g l l' :
  Js.filterM g l = Some (Normal l') ->
  Forall (fun a => exists keep, g a = Some (Normal keep)) l.
Proof.
  revert l'. induction l as [|a l IH]; intros l'; cbn [Js.filterM]; [constructor|].
  destruct (g a) as [[k|e]|] eqn:Ha; try done. cbn [Js.bind].
  destruct (Js.filterM g l) as [[rest|e]|] eqn:Hl; try done. intros _.
  constructor; [by exists k|]. by apply (IH rest).
Qed.

Lemma filterM_pure g (keep : A -> bool) l :
  Forall (fun a => g a = Some (Normal (keep a))) l ->
  Js.filterM g l = Some (Normal (List.filter keep l)).
Proof.
  induction 1 as [|a l Ha _ IH]; [done|]. cbn [Js.filterM List.filter].
  rewrite Ha. cbn [Js.bind]. rewrite IH. cbn. by destruct (keep a).
Qed.

Lemma mapM_pure f (h : A -> B) l :
  Forall (fun a => f a = Some (Normal (h a))) l ->
  Js.mapM f l = Some (Normal (map h l)).
Proof.
  induction 1 as [|a l Ha _ IH]; [done|]. cbn [Js.mapM map].
  rewrite Ha. cbn [Js.bind]. by rewrite IH.
Qed.

End Results.

Section Items.

Implicit Types (product item : value) (pid productId : string) (q : double).
Implicit Types (o : list (string * value)) (items : list value).

Lemma lookup_property_step k k0 v0 o :
  lookup_property k ((k0, v0) :: o)
  = if bool_decide (k0 = k) then Some v0 else lookup_property k o.
Proof. unfold lookup_property. cbn [find fst]. by case_bool_decide. Qed.

Lemma lookup_set_property k v o : lookup_property k (set_property k v o) = Some v.
Proof.
  induction o as [|[k' v'] o IH]; cbn [set_property].
  - rewrite lookup_property_step. by rewrite bool_decide_true.
  - case_bool_decide as Hk; rewrite lookup_property_step.
    + by rewrite bool_decide_true.
    + by rewrite bool_decide_false.
Qed.

Lemma lookup_set_property_ne k k' v o :
  k' <> k -> lookup_property k' (set_property k v o) = lookup_property k' o.
Proof.
  intros Hne. induction o as [|[k0 v0] o IH]; cbn [set_property].
  - rewrite lookup_property_step. by rewrite bool_decide_false.
  - case_bool_decide as Hk; rewrite !lookup_property_step.
    + subst k0. by rewrite !bool_decide_false.
    + by rewrite IH.
Qed.

Lemma item_id_set_quantity q item : item_id (set_quantity q item) = item_id item.
Proof. destruct item; try done. cbn. by rewrite lookup_set_property_ne. Qed.

Lemma item_quantity_set_quantity q item :
  is_Some (item_id item) -> item_quantity (set_quantity q item) = Some q.
Proof. destruct item; try by intros [? [=]]. intros _. cbn. by rewrite lookup_set_property. Qed.

Lemma spread_quantity_item item q :
  is_Some (item_id item) -> Js.spread_quantity item q = Js.ret (set_quantity q item).
Proof. destruct item; by intros [? [=]] || done. Qed.

Lemma item_id_object item pid : item_id item = Some pid -> item <> JNull.
Proof. by destruct item. Qed.

Lemma same_id_spec product pid item :
  item_id product = Some pid -> item <> JNull ->
  Js.same_id product item = Js.ret (bool_decide (item_id item = Some pid)).
Proof.
  intros Hp Hitem. unfold Js.same_id.
  assert (Js.get product "id" = Js.ret (Some (JString pid))) as Hget.
  { destruct product as [| | | | |o]; try done. cbn in *.
    destruct (lookup_property "id" o) as [[]|]; try done. by injection Hp as ->. }
  destruct item as [|b|x|s|l|o]; try done; cbn [Js.get Js.ret Js.bind]; rewrite ?Hget;
    cbn [Js.bind Js.ret Js.strict_equals item_id]; try done.
  destruct (lookup_property "id" o) as [[|b|x|s|l|o']|]; cbn; try done.
  do 2 f_equal. apply bool_decide_ext. split; congruence.
Qed.

Lemma has_id_spec productId item :
  item <> JNull ->
  Js.has_id productId item = Js.ret (bool_decide (item_id item = Some productId)).
Proof.
  intros Hitem. unfold Js.has_id.
  destruct item as [|b|x|s|l|o]; try done.
  cbn [Js.get Js.ret Js.bind Js.strict_equals item_id].
  destruct (lookup_property "id" o) as [[|b|x|s|l|o']|]; cbn; try done.
  do 2 f_equal. apply bool_decide_ext. split; congruence.
Qed.

Lemma same_id_defined product item (found : bool) :
  Js.same_id product item = Some (Normal found) -> item <> JNull.
Proof. by intros H ->. Qed.

Lemma has_id_defined productId item (found : bool) :
  Js.has_id productId item = Some (Normal found) -> item <> JNull.
Proof. by intros H ->. Qed.

(** [find] on items that can be asked for their [id]. *)
Lemma find_item_spec product pid items :
  item_id product = Some pid -> Forall (fun item => item <> JNull) items ->
  Js.find_item product items
  = Js.ret (find (fun item => bool_decide (item_id item = Some pid)) items).
Proof.
  intros Hp. induction 1 as [|item items Hitem _ IH]; [done|].
  cbn [Js.find_item find]. rewrite (same_id_spec _ _ _ Hp Hitem). cbn [Js.bind Js.ret].
  by case_bool_decide.
Qed.

Lemma find_item_defined product items found :
  Js.find_item product items = Some (Normal found) ->
  match found with
  | Some item => exists before after, items = before ++ item :: after
                   /\ Forall (fun item => item <> JNull) before
                   /\ Js.same_id product item = Some (Normal true)
  | None => Forall (fun item => item <> JNull) items
  end.
Proof.
  revert found. induction items as [|item items IH]; intros found; cbn [Js.find_item].
  - intros [= <-]. constructor.
  - destruct (Js.same_id product item) as [[[]|e]|] eqn:Hsame; try done; cbn [Js.bind].
    + intros [= <-]. by exists [], items.
    + intros Hfind. specialize (IH _ Hfind).
      apply same_id_defined in Hsame. destruct found as [item'|].
      * destruct IH as (before & after & -> & Hb & Hsame'). exists (item :: before), after.
        split; [done|]. split; [by constructor|done].
      * by constructor.
Qed.

End Items.

Section JsUpdaterFacts.

Implicit Types (product item : value) (pid productId : string) (q : double).
Implicit Types (items : list value).

Lemma line_item_not_null item : line_item item -> item <> JNull.
Proof. by intros [[? H] _] ->. Qed.

Lemma Forall_line_items_not_null items :
  Forall line_item items -> Forall (fun item => item <> JNull) items.
Proof. intros H. eapply Forall_impl; [exact H|]. apply line_item_not_null. Qed.

Lemma get_quantity item held :
  item_quantity item = Some held -> Js.get item "quantity" = Js.ret (Some (JNumber held)).
Proof.
  destruct item as [| | | | |o]; try done. cbn.
  destruct (lookup_property "quantity" o) as [[]|]; try done. by intros [= ->].
Qed.

(** [addToCart] on a cart of line items. *)
Lemma addToCart_line_items product pid q items :
  item_id product = Some pid -> Forall line_item items ->
  Js.addToCart product q items
  = Js.ret (if existsb (has_item_id pid) items
            then map (fun item => if has_item_id pid item then raise_quantity q item
                                  else item) items
            else items ++ [set_quantity (Math_max (double_of_Z 1) q) product]).
Proof.
  intros Hp Hitems. unfold Js.addToCart.
  rewrite (find_item_spec _ pid) by (done || by apply Forall_line_items_not_null).
  cbn [Js.bind Js.ret].
  destruct (find _ items) as [found|] eqn:Hfind.
  - apply find_some in Hfind as [Hin Hfound]. apply bool_decide_eq_true in Hfound.
    assert (Js.ToBoolean (Some found) = true) as -> by (by destruct found).
    assert (existsb (has_item_id pid) items = true) as ->.
    { apply existsb_exists. exists found. split; [done|]. by apply bool_decide_eq_true. }
    apply mapM_pure. eapply Forall_impl; [exact Hitems|]. cbn. intros item Hitem.
    rewrite (same_id_spec _ pid) by (done || by apply line_item_not_null).
    cbn [Js.bind Js.ret]. unfold has_item_id. case_bool_decide as Hid; [|done].
    destruct Hitem as [_ [held Hheld]]. rewrite (get_quantity _ _ Hheld).
    cbn [Js.bind Js.ret Js.plus Js.ToNumber]. rewrite spread_quantity_item by by rewrite Hid.
    unfold raise_quantity. by rewrite Hheld.
  - cbn [Js.ToBoolean].
    assert (existsb (has_item_id pid) items = false) as ->.
    { apply not_true_is_false. intros (item & Hin & Hid)%existsb_exists.
      pose proof (find_none _ _ Hfind item Hin) as Hno. cbn in Hno.
      unfold has_item_id in Hid. congruence. }
    by rewrite spread_quantity_item by by rewrite Hp.
Qed.

(** [removeFromCart] where it returns. *)
Lemma removeFromCart_pure productId items :
  Forall (fun item => item <> JNull) items ->
  Js.removeFromCart productId items
  = Js.ret (List.filter (fun item => negb (has_item_id productId item)) items).
Proof.
  intros Hitems. apply filterM_pure. eapply Forall_impl; [exact Hitems|]. cbn.
  intros item Hitem. by rewrite has_id_spec.
Qed.

Lemma removeFromCart_defined productId items items' :
  Js.removeFromCart productId items = Some (Normal items') ->
  Forall (fun item => item <> JNull) items.
Proof.
  intros H%filterM_defined. eapply Forall_impl; [exact H|]. cbn.
  intros item [keep Hkeep] ->. done.
Qed.

(** [updateQuantity] with a quantity that is not [<= 0], where it
    returns. *)
Lemma update_pure productId q items :
  Forall (fun item => item <> JNull) items ->
  Js.mapM (fun item =>
             Js.bind (Js.has_id productId item)
                     (fun found => if found then Js.spread_quantity item q
                                   else Js.ret item)) items
  = Js.ret (map (fun item => if has_item_id productId item then set_quantity q item
                             else item) items).
Proof.
  intros Hitems. apply mapM_pure. eapply Forall_impl; [exact Hitems|]. cbn.
  intros item Hitem. rewrite has_id_spec by done. cbn [Js.bind Js.ret].
  unfold has_item_id. case_bool_decide as Hid; [|done].
  by rewrite spread_quantity_item by by rewrite Hid.
Qed.

Lemma update_defined productId q items items' :
  Js.mapM (fun item =>
             Js.bind (Js.has_id productId item)
                     (fun found => if found then Js.spread_quantity item q
                                   else Js.ret item)) items
  = Some (Normal items') ->
  Forall (fun item => item <> JNull) items.
Proof.
  intros H%mapM_Forall2. induction H as [|item b items bs Hb _ IH]; constructor; [|done].
  by intros ->.
Qed.

End JsUpdaterFacts.

(** * The provider as it runs: carts reached from the empty cart *)

Section Reached.

Implicit Types (product item : value) (pid productId : string) (q held : double).
Implicit Types (items : list value) (allowed Q : double -> Prop).

Lemma quantity_in_line_item Q item : quantity_in Q item -> line_item item.
Proof. intros [Hid (q & Hq & _)]. split; [done|by exists q]. Qed.

Lemma Forall_filter_keep {A : Type} (P : A -> Prop) (keep : A -> bool) (l : list A) :
  Forall P l -> Forall P (List.filter keep l).
Proof.
  induction 1 as [|a l Ha _ IH]; [constructor|]. cbn [List.filter].
  destruct (keep a); [by constructor|done].
Qed.

Lemma quantity_in_set Q q item :
  is_Some (item_id item) -> Q q -> quantity_in Q (set_quantity q item).
Proof.
  intros Hid Hq. split; [by rewrite item_id_set_quantity|].
  exists q. by rewrite item_quantity_set_quantity.
Qed.

Lemma Math_max_NaN x y : is_NaN (Math_max x y) = is_NaN x || is_NaN y.
Proof.
  unfold Math_max. destruct (is_NaN x || is_NaN y) eqn:E; [done|].
  apply orb_false_elim in E as [Hx Hy].
  destruct x as [[]|[]| |[] m e], y as [[]|[]| |[] m' e']; try done;
    by destruct (SFltb _ _).
Qed.

(** What the updaters keep of the quantities. *)
Lemma reached_invariant allowed Q :
  (forall held q, Q held -> allowed q ->
                  Q (Math_max (S754_zero false) (double_add held q))) ->
  (forall q, allowed q -> Q (Math_max (double_of_Z 1) q)) ->
  (forall q, allowed q -> SFleb q (S754_zero false) = false -> Q q) ->
  forall items, cart_reached allowed items -> Forall (quantity_in Q) items.
Proof.
  intros Hadd Hnew Hset items. induction 1 as [|c items items' _ IH Hc Hcall]; [constructor|].
  assert (Forall line_item items) as Hlines.
  { eapply Forall_impl; [exact IH|]. apply quantity_in_line_item. }
  pose proof (Forall_line_items_not_null _ Hlines) as Hnot_null.
  destruct c as [product quantity|productId|productId quantity|]; cbn in Hc, Hcall.
  - destruct Hc as [[pid Hpid] Hq].
    rewrite (addToCart_line_items _ pid) in Hcall by done. injection Hcall as <-.
    destruct (existsb _ items).
    + apply Forall_map. eapply Forall_impl; [exact IH|]. cbn.
      intros item [Hid (held & Hheld & HQ)]. destruct (has_item_id pid item).
      * unfold raise_quantity. rewrite Hheld. apply quantity_in_set; [done|]. by apply Hadd.
      * split; [done|]. by exists held.
    + apply Forall_app. split; [done|]. constructor; [|constructor].
      apply quantity_in_set; [by rewrite Hpid|]. by apply Hnew.
  - rewrite removeFromCart_pure in Hcall by done. injection Hcall as <-.
    by apply Forall_filter_keep.
  - unfold Js.updateQuantity in Hcall.
    destruct (SFleb quantity (S754_zero false)) eqn:Hle.
    + rewrite removeFromCart_pure in Hcall by done. injection Hcall as <-.
      by apply Forall_filter_keep.
    + rewrite update_pure in Hcall by done. injection Hcall as <-.
      apply Forall_map. eapply Forall_impl; [exact IH|]. cbn.
      intros item [Hid HQ]. destruct (has_item_id productId item); [|done].
      apply quantity_in_set; [done|]. by apply Hset.
  - injection Hcall as <-. constructor.
Qed.

(** No call fails on a cart of line items. *)
Lemma typed_call_returns allowed c items :
  Forall line_item items -> typed_call allowed c ->
  exists items', Js.updater_of c items = Some (Normal items').
Proof.
  intros Hlines Hc. pose proof (Forall_line_items_not_null _ Hlines) as Hnot_null.
  destruct c as [product quantity|productId|productId quantity|]; cbn in *.
  - destruct Hc as [[pid Hpid] _]. rewrite (addToCart_line_items _ pid) by done. eauto.
  - rewrite removeFromCart_pure by done. eauto.
  - unfold Js.updateQuantity. destruct (SFleb _ _).
    + rewrite removeFromCart_pure by done. eauto.
    + rewrite update_pure by done. eauto.
  - eauto.
Qed.

End Reached.

(** * The provider as it runs: the claims on quantities and totals *)

Section States.

Implicit Types (st : Js.Store) (items : list value) (pid : string).

Lemma elem_of_item_ids pid items :
  pid ∈ item_ids items <-> exists item, item ∈ items /\ item_id item = Some pid.
Proof. apply list_elem_of_omap. Qed.

Lemma existsb_has_item_id pid items :
  existsb (has_item_id pid) items = true <-> pid ∈ item_ids items.
Proof.
  rewrite existsb_exists, elem_of_item_ids. unfold has_item_id.
  split; intros (item & Hin & Hid); exists item.
  - split; [by apply list_elem_of_In|by apply bool_decide_eq_true in Hid].
  - split; [by apply list_elem_of_In|by apply bool_decide_eq_true].
Qed.

Lemma item_ids_map (f : value -> value) items :
  (forall item, item_id (f item) = item_id item) ->
  item_ids (map f items) = item_ids items.
Proof.
  intros Hf. unfold item_ids. induction items as [|item items IH]; [done|].
  cbn [map]. csimpl. rewrite Hf. destruct (item_id item); by rewrite IH.
Qed.

Lemma item_ids_app items items' :
  item_ids (items ++ items') = item_ids items ++ item_ids items'.
Proof. apply omap_app. Qed.

Lemma item_ids_filter_out pid items :
  pid ∉ item_ids (List.filter (fun item => negb (has_item_id pid item)) items).
Proof.
  intros (item & Hin & Hid)%elem_of_item_ids.
  apply list_elem_of_In, filter_In in Hin as [_ Hkeep].
  unfold has_item_id in Hkeep. by rewrite bool_decide_true in Hkeep.
Qed.

Lemma cart_reached_line_items allowed items :
  cart_reached allowed items -> Forall line_item items.
Proof.
  intros H. apply (reached_invariant allowed (fun _ => True)) in H; [|done..].
  eapply Forall_impl; [exact H|]. apply quantity_in_line_item.
Qed.

Lemma persistence_effect_inv st st' :
  Js.persistence_effect st = Some (Normal st') ->
  Js.cartItems st' = Js.cartItems st /\ Js.hasMounted st' = Js.hasMounted st.
Proof.
  unfold Js.persistence_effect. destruct (Js.hasMounted st) eqn:Hm.
  - destruct (Js.localStorage st); [|done]. by intros [= <-].
  - by intros [= <-].
Qed.

Lemma provided_ext st st' :
  Js.cartItems st' = Js.cartItems st -> Js.hasMounted st' = Js.hasMounted st ->
  Js.provided st' = Js.provided st.
Proof. unfold Js.provided. by intros -> ->. Qed.

Lemma commit_inv st st' :
  Js.commit st = Some (Normal st') ->
  Js.cartItems st' = Js.cartItems st /\ Js.hasMounted st' = Js.hasMounted st
  /\ exists context, Js.provided st' = Some (Normal context).
Proof.
  unfold Js.commit. intros (context & Hctx & Hp)%bind_Normal.
  apply persistence_effect_inv in Hp as [Hitems Hm]. split; [done|]. split; [done|].
  exists context. by rewrite (provided_ext st st').
Qed.

Lemma setCartItems_inv updater st st' :
  Js.setCartItems updater st = Some (Normal st') ->
  updater (Js.cartItems st) = Some (Normal (Js.cartItems st'))
  /\ Js.hasMounted st' = Js.hasMounted st
  /\ exists context, Js.provided st' = Some (Normal context).
Proof.
  unfold Js.setCartItems. intros (items & Hitems & Hc)%bind_Normal.
  apply commit_inv in Hc as (Hitems' & Hm & Hctx). cbn in Hitems', Hm.
  by rewrite Hitems'.
Qed.


End States.

(** C3, as stated, fails: adding 1 and then -1 of the same product leaves
    its line item in the cart with quantity 0, and [updateQuantity] with
    NaN, which is not [<= 0], stores NaN. *)
Lemma quantity_zero_reachable :
  Js.bind (Js.addToCart product1 (double_of_Z 1) [])
          (Js.addToCart product1 (double_of_Z (-1)))
  = Js.ret [set_quantity (S754_zero false) product1]
  /\ Js.bind (Js.addToCart product1 (double_of_Z 1) [])
             (Js.updateQuantity "p1" S754_nan)
     = Js.ret [set_quantity S754_nan product1]
  /\ ~ (forall items,
          cart_reached (fun q => is_finite q = true) items ->
          Forall (quantity_in (fun q => SFleb (double_of_Z 1) q = true)) items).
Proof.
  split; [reflexivity|]. split; [reflexivity|]. intros Hclaim.
  assert (cart_reached (fun q => is_finite q = true) [set_quantity (S754_zero false) product1])
    as Hreach.
  { apply (reached_call _ (Js.call_addToCart product1 (Some (double_of_Z (-1))))
                        [set_quantity (double_of_Z 1) product1]); [|by split; [eexists|]|done].
    apply (reached_call _ (Js.call_addToCart product1 (Some (double_of_Z 1))) []);
      [constructor|by split; [eexists|]|done]. }
  apply Hclaim, Forall_cons_1 in Hreach as [[_ (q & Hq & Hle)] _].
  injection Hq as <-. done.
Qed.

(** C3, amended.  In every cart reached from the empty cart through
    [addToCart], [removeFromCart], [updateQuantity] and [clearCart], called
    with finite quantities, every line item has a quantity of at least 0;
    whatever the quantities, no quantity is below 0 (it is at least 0 or
    NaN) and no call fails.  [addToCart] never removes a line item and
    inserts a new one with the greater of 1 and the quantity, and
    [updateQuantity] with a quantity of 0 or less removes the line item. *)
Theorem reachable_quantity_spec :
  (forall items,
      cart_reached (fun q => is_finite q = true) items ->
      Forall (quantity_in not_negative) items)
  /\ (forall items,
        cart_reached (fun _ => True) items ->
        Forall (quantity_in (fun q => is_NaN q = true \/ not_negative q)) items)
  /\ (forall allowed items c,
        cart_reached allowed items -> typed_call allowed c ->
        exists items', Js.updater_of c items = Some (Normal items'))
  /\ (forall allowed items product q items',
        cart_reached allowed items -> is_Some (item_id product) ->
        Js.addToCart product q items = Some (Normal items') ->
        (length items <= length items')%nat
        /\ forall pid, pid ∈ item_ids items -> pid ∈ item_ids items')
  /\ (forall allowed items product pid q,
        cart_reached allowed items -> item_id product = Some pid ->
        pid ∉ item_ids items ->
        Js.addToCart product q items
        = Some (Normal (items ++ [set_quantity (Math_max (double_of_Z 1) q) product]))
        /\ (is_finite q = true -> SFleb (double_of_Z 1) (Math_max (double_of_Z 1) q) = true))
  /\ (forall allowed items pid q items',
        cart_reached allowed items -> SFleb q (S754_zero false) = true ->
        Js.updateQuantity pid q items = Some (Normal items') ->
        pid ∉ item_ids items').
Proof.
  split; [|split; [|split; [|split; [|split]]]].
  - apply reached_invariant.
    + intros held q Hheld Hq.
      pose proof (double_add_not_NaN held q Hheld Hq) as Hsum.
      destruct (Math_max_zero (double_add held q)) as [Hnan|]; [|done].
      by rewrite Math_max_NaN, Hsum in Hnan.
    + intros q Hq. destruct (Math_max_one q) as [Hnan|Hone]; [|by apply above_one].
      rewrite Math_max_NaN in Hnan. by destruct q.
    + intros q Hq Hle. destruct (not_below_zero q Hle) as [Hnan|]; [|done]. by destruct q.
  - apply reached_invariant.
    + intros held q _ _. apply Math_max_zero.
    + intros q _. destruct (Math_max_one q) as [|Hone]; [by left|right; by apply above_one].
    + intros q _. apply not_below_zero.
  - intros allowed items c Hreach. apply typed_call_returns.
    by apply (cart_reached_line_items allowed).
  - intros allowed items product q items' Hreach [pid Hpid].
    rewrite (addToCart_line_items _ pid) by (done || by apply (cart_reached_line_items allowed)).
    intros [= <-]. destruct (existsb _ items).
    + rewrite length_map. split; [done|]. rewrite item_ids_map; [done|].
      intros item. destruct (has_item_id pid item); [|done]. apply item_id_set_quantity.
    + rewrite length_app. split; [lia|]. intros pid'. rewrite item_ids_app.
      intros Hin. apply elem_of_app. by left.
  - intros allowed items product pid q Hreach Hpid Hnew.
    rewrite (addToCart_line_items _ pid) by (done || by apply (cart_reached_line_items allowed)).
    assert (existsb (has_item_id pid) items = false) as ->.
    { apply not_true_is_false. by rewrite existsb_has_item_id. }
    split; [done|]. intros Hq. destruct (Math_max_one q) as [Hnan|]; [|done].
    rewrite Math_max_NaN in Hnan. by destruct q.
  - intros allowed items pid q items' Hreach Hle. unfold Js.updateQuantity. rewrite Hle.
    rewrite removeFromCart_pure
      by by apply Forall_line_items_not_null, (cart_reached_line_items allowed).
    intros [= <-]. apply item_ids_filter_out.
Qed.

Lemma reachable_quantity_spec_witness :
  Forall (quantity_in not_negative) [set_quantity (S754_zero false) product1].
Proof.
  apply (proj1 reachable_quantity_spec).
  apply (reached_call _ (Js.call_addToCart product1 (Some (double_of_Z (-1))))
                      [set_quantity (double_of_Z 1) product1]); [|by split; [eexists|]|done].
  apply (reached_call _ (Js.call_addToCart product1 (Some (double_of_Z 1))) []);
    [constructor|by split; [eexists|]|done].
Defined.



(** * Storage: hydration and persistence *)

(** ** Hydration *)

Section Hydration.

Implicit Types (storage : gmap string string) (text : string).


Lemma hydration_effect_absent storage :
  storage !! "cartItems" = None \/ storage !! "cartItems" = Some "" ->
  hydration_effect storage
  = Some (Normal {| setHasMounted := true; setCartItems_arg := None;
                    storage_after := storage; console := [] |}).
Proof. unfold hydration_effect. by intros [-> | ->]. Qed.

Lemma hydration_effect_throw storage text e :
  storage !! "cartItems" = Some text -> text <> "" ->
  JSON_parse text = Some (Throw e) ->
  hydration_effect storage
  = Some (Normal {| setHasMounted := true; setCartItems_arg := None;
                    storage_after := delete "cartItems" storage;
                    console :=
                      [console_error "Error parsing cart data from localStorage:"] |}).
Proof.
  intros Hget Htext Hparse. unfold hydration_effect, truthy.
  rewrite Hget, bool_decide_false, Hparse by done. reflexivity.
Qed.

Lemma hydration_effect_invalid storage text v :
  storage !! "cartItems" = Some text -> text <> "" ->
  JSON_parse text = Some (Normal v) -> isArray v = false ->
  hydration_effect storage
  = Some (Normal {| setHasMounted := true; setCartItems_arg := None;
                    storage_after := delete "cartItems" storage;
                    console := [console_warn "Invalid cart data in localStorage:"] |}).
Proof.
  intros Hget Htext Hparse Hv. unfold hydration_effect, truthy.
  rewrite Hget, bool_decide_false, Hparse by done. cbn. by rewrite Hv.
Qed.


(** Whatever is stored, the effect completes normally when the text is in
    the model. *)
Lemma hydration_effect_no_throw storage e : hydration_effect storage <> Some (Throw e).
Proof.
  unfold hydration_effect. destruct (storage !! "cartItems") as [text|]; [|done].
  destruct (truthy text); [|done].
  destruct (JSON_parse text) as [[[]|]|]; done.
Qed.

(** Every run of the effect calls [setHasMounted(true)]. *)
Lemma hydration_effect_ran storage h :
  hydration_effect storage = Some (Normal h) -> setHasMounted h = true.
Proof.
  unfold hydration_effect. destruct (storage !! "cartItems") as [text|];
    [|by intros [= <-]].
  destruct (truthy text); [|by intros [= <-]].
  destruct (JSON_parse text) as [[v|e]|]; [| |done].
  - cbn. destruct (isArray v); by intros [= <-].
  - by intros [= <-].
Qed.


(** What the effect hands to [setCartItems] is the array parsed from the
    stored text. *)
Lemma hydration_effect_installs storage h v :
  hydration_effect storage = Some (Normal h) -> setCartItems_arg h = Some v ->
  storage_after h = storage
  /\ exists text parsedData,
       v = JArray parsedData /\ storage !! "cartItems" = Some text
       /\ JSON_parse text = Some (Normal (JArray parsedData)).
Proof.
  unfold hydration_effect. destruct (storage !! "cartItems") as [text|] eqn:Hget;
    [|by intros [= <-]].
  destruct (truthy text); [|by intros [= <-]].
  destruct (JSON_parse text) as [[parsed|e]|] eqn:Hparse; [| |done].
  - cbn. destruct parsed as [| | | |parsedData|]; cbn; intros [= <-]; cbn; try done.
    intros [= <-]. split; [done|]. by exists text, parsedData.
  - by intros [= <-].
Qed.

End Hydration.

(** ** One line item per identifier *)

Section Unique.

Implicit Types (product item : value) (pid productId : string) (q : double).
Implicit Types (items : list value) (st : Js.Store).

Lemma spread_quantity_id item q spread :
  Js.spread_quantity item q = Some (Normal spread) -> item_id spread = item_id item.
Proof.
  destruct item; try done; intros [= <-]; try done.
  apply (item_id_set_quantity q (JObject _)).
Qed.

Lemma Forall2_item_ids items items' :
  Forall2 (fun item item' => item_id item' = item_id item) items items' ->
  item_ids items' = item_ids items.
Proof.
  unfold item_ids. induction 1 as [|item item' items items' Hid _ IH]; [done|].
  csimpl. by rewrite Hid, IH.
Qed.

(** [addToCart] changes the identifiers by the new one at most, whatever
    the cart holds. *)
Lemma addToCart_ids product pid q items items' :
  item_id product = Some pid ->
  Js.addToCart product q items = Some (Normal items') ->
  item_ids items' = item_ids items
  \/ ((pid ∉ item_ids items) /\ item_ids items' = item_ids items ++ [pid]).
Proof.
  intros Hpid. unfold Js.addToCart. intros (found & Hfind & Hrest)%bind_Normal.
  destruct (Js.ToBoolean found) eqn:Htruthy.
  - left. apply Forall2_item_ids. apply mapM_Forall2 in Hrest.
    eapply Forall2_impl; [exact Hrest|]. cbn.
    intros item item' (same & Hsame & Hitem)%bind_Normal. destruct same.
    + apply bind_Normal in Hitem as (held & _ & (sum & _ & Hspread)%bind_Normal).
      by apply spread_quantity_id in Hspread.
    + by injection Hitem as <-.
  - right. apply find_item_defined in Hfind as Hdef. destruct found as [item|].
    { destruct Hdef as (_ & _ & _ & _ & Hsame).
      pose proof (same_id_defined _ _ _ Hsame) as Hitem.
      rewrite (same_id_spec _ pid) in Hsame by done. injection Hsame as Hsame.
      apply bool_decide_eq_true in Hsame. by destruct item. }
    rewrite (find_item_spec _ pid) in Hfind by done. injection Hfind as Hfind.
    apply bind_Normal in Hrest as (new & Hnew & [= <-]).
    apply spread_quantity_id in Hnew. split.
    + intros (item & Hin & Hid)%elem_of_item_ids.
      apply list_elem_of_In in Hin. pose proof (find_none _ _ Hfind item Hin) as Hno.
      cbn in Hno. by rewrite bool_decide_true in Hno.
    + rewrite item_ids_app. unfold item_ids at 2. csimpl. by rewrite Hnew, Hpid.
Qed.

Lemma item_ids_filter (keep : value -> bool) items :
  sublist (item_ids (List.filter keep items)) (item_ids items).
Proof.
  unfold item_ids. induction items as [|item items IH]; [done|]. cbn [List.filter].
  destruct (keep item); csimpl; destruct (item_id item); try done.
  - by apply sublist_skip.
  - by apply sublist_cons.
Qed.

(** No call gives one identifier two line items. *)
Lemma updater_NoDup c items items' :
  typed_call (fun _ => True) c ->
  Js.updater_of c items = Some (Normal items') ->
  NoDup (item_ids items) -> NoDup (item_ids items').
Proof.
  intros Hc Hcall Hnodup.
  assert (forall pid, NoDup (item_ids
            (List.filter (fun item => negb (has_item_id pid item)) items))) as Hfilter.
  { intros pid. eapply sublist_NoDup; [exact Hnodup|apply item_ids_filter]. }
  destruct c as [product quantity|productId|productId quantity|]; cbn in Hc, Hcall.
  - destruct Hc as [[pid Hpid] _].
    destruct (addToCart_ids _ _ _ _ _ Hpid Hcall) as [->|[Hnew ->]]; [done|].
    apply NoDup_app. split; [done|]. split; [|apply NoDup_singleton].
    intros pid' Hin ->%list_elem_of_singleton. done.
  - pose proof (removeFromCart_defined _ _ _ Hcall) as Hnot_null.
    rewrite removeFromCart_pure in Hcall by done. injection Hcall as <-. apply Hfilter.
  - unfold Js.updateQuantity in Hcall. destruct (SFleb _ _).
    + pose proof (removeFromCart_defined _ _ _ Hcall) as Hnot_null.
      rewrite removeFromCart_pure in Hcall by done. injection Hcall as <-. apply Hfilter.
    + pose proof (update_defined _ _ _ _ Hcall) as Hnot_null.
      rewrite update_pure in Hcall by done. injection Hcall as <-.
      rewrite item_ids_map; [done|]. intros item.
      destruct (has_item_id productId item); [|done]. apply item_id_set_quantity.
  - injection Hcall as <-. constructor.
Qed.

Lemma Js_mount_inv st st' :
  Js.mount st = Some (Normal st') ->
  exists data h,
    Js.localStorage st = Some data
    /\ hydration_effect data = Some (Normal h)
    /\ Js.hasMounted st' = true
    /\ Js.cartItems st' = match setCartItems_arg h with
                          | Some (JArray parsedData) => parsedData
                          | _ => Js.cartItems st
                          end.
Proof.
  unfold Js.mount. destruct (Js.localStorage st) as [data|]; [|done].
  destruct (hydration_effect data) as [[h|e]|] eqn:Hh; try done.
  intros (Hitems & Hm & _)%commit_inv. cbn in Hitems, Hm.
  exists data, h. by rewrite (hydration_effect_ran _ _ Hh) in Hm.
Qed.

Lemma setCartItems_before_mount updater st st' :
  Js.hasMounted st = false ->
  Js.setCartItems updater st = Some (Normal st') ->
  Js.localStorage st' = Js.localStorage st.
Proof.
  intros Hm. unfold Js.setCartItems, Js.commit.
  intros (items & _ & (context & _ & Hp)%bind_Normal)%bind_Normal.
  unfold Js.persistence_effect in Hp. cbn in Hp. rewrite Hm in Hp. by injection Hp as <-.
Qed.

End Unique.

(** C6, as stated, fails: hydration installs a stored array with two line
    items of one product as it is. *)
Lemma hydration_installs_duplicates :
  exists st',
    Js.mount (Js.initial (Some {[ "cartItems" := duplicate_snapshot ]})) = Some (Normal st')
    /\ provider_reaches (Some {[ "cartItems" := duplicate_snapshot ]}) st'
    /\ item_ids (Js.cartItems st') = ["p1"; "p1"]
    /\ ~ NoDup (item_ids (Js.cartItems st')).
Proof.
  eexists. split; [vm_compute; reflexivity|]. split; [|split; [reflexivity|]].
  - eapply reaches_mount; [apply reaches_initial|reflexivity|]. vm_compute. reflexivity.
  - cbn. intros Hnodup. apply NoDup_cons in Hnodup as [Hin _]. apply Hin. by left.
Qed.

(** C6, amended: when the array that hydration finds in the storage has at
    most one line item per identifier (as has every array that the
    persistence effect wrote from such a cart), every state that the
    provider goes through has at most one line item per identifier,
    hydration included; the calls never give an identifier a second line
    item. *)
Theorem unique_identifiers_spec (storage : option (gmap string string)) (st : Js.Store) :
  provider_reaches storage st ->
  (forall data text parsedData,
      storage = Some data -> data !! "cartItems" = Some text ->
      JSON_parse text = Some (Normal (JArray parsedData)) ->
      NoDup (item_ids parsedData)) ->
  NoDup (item_ids (Js.cartItems st)).
Proof.
  intros Hreach Hstored.
  enough (NoDup (item_ids (Js.cartItems st))
          /\ (Js.hasMounted st = false -> Js.localStorage st = storage)) as [H _] by done.
  induction Hreach as [|st st' _ [IH Hstorage] Hm Hmount|c st st' _ [IH Hstorage] Hc Hcall].
  - split; [constructor|done].
  - apply Js_mount_inv in Hmount as (data & h & Hdata & Hh & Hm' & Hitems).
    split; [|by rewrite Hm']. rewrite Hitems.
    destruct (setCartItems_arg h) as [v|] eqn:Harg; [|done].
    destruct (hydration_effect_installs _ _ _ Hh Harg)
      as (_ & text & parsedData & -> & Hget & Hparse).
    apply (Hstored data text); [|done..]. by rewrite <- Hstorage.
  - pose proof (setCartItems_inv _ _ _ Hcall) as (Hitems & Hm & _). split.
    + by apply (updater_NoDup c (Js.cartItems st)).
    + rewrite Hm. intros Hfalse. rewrite <- (Hstorage Hfalse).
      by apply (setCartItems_before_mount (Js.updater_of c)).
Qed.

Lemma unique_identifiers_spec_witness :
  exists st',
    Js.mount (Js.initial (Some {[ "cartItems" := json_text "[{'id':'p2','price':19.99,'quantity':3}]" ]}))
    = Some (Normal st')
    /\ NoDup (item_ids (Js.cartItems st')).
Proof.
  eexists. split; [vm_compute; reflexivity|].
  eapply (unique_identifiers_spec
            (Some {[ "cartItems" := json_text "[{'id':'p2','price':19.99,'quantity':3}]" ]})).
  - eapply reaches_mount; [apply reaches_initial|reflexivity|]. vm_compute. reflexivity.
  - intros data text parsedData [= <-]. rewrite lookup_singleton_eq. intros [= <-].
    vm_compute. intros [= <-]. apply NoDup_singleton.
Defined.

(** ** Hydration of what is not a cart, and of what was persisted *)

(** C7: what the code does on stored values that are arrays but no
    sequences of line items, and on a storage that cannot be read.  The
    only check of line 31 is [Array.isArray]: [[null]] is installed and the
    entry kept, and the render that follows throws at [item.price]; [[1]]
    is installed, kept and written back, with totals that are NaN; where
    [getItem] throws, the error leaves the effect, line 27 being outside
    the [try].  On the three inputs of the claim the effect deletes the
    entry and the store stays empty. *)
Theorem hydration_of_invalid_data :
  hydration_effect {[ "cartItems" := "[null]" ]}
  = Some (Normal {| setHasMounted := true; setCartItems_arg := Some (JArray [JNull]);
                    storage_after := {[ "cartItems" := "[null]" ]}; console := [] |})
  /\ Js.mount (Js.initial (Some {[ "cartItems" := "[null]" ]})) = Some (Throw TypeError)
  /\ Js.mount (Js.initial (Some {[ "cartItems" := "[1]" ]}))
     = Some (Normal {| Js.cartItems := [JNumber (double_of_Z 1)]; Js.hasMounted := true;
                       Js.localStorage := Some {[ "cartItems" := "[1]" ]} |})
  /\ Js.provided {| Js.cartItems := [JNumber (double_of_Z 1)]; Js.hasMounted := true;
                    Js.localStorage := Some {[ "cartItems" := "[1]" ]} |}
     = Js.ret {| Js.ctx_cartItems := [JNumber (double_of_Z 1)];
                 Js.ctx_cartTotal := S754_nan; Js.ctx_itemCount := S754_nan;
                 Js.ctx_hasMounted := true |}
  /\ Js.mount (Js.initial None) = Some (Throw SecurityError)
  /\ Forall (fun text =>
               exists log,
                 hydration_effect {[ "cartItems" := text ]}
                 = Some (Normal {| setHasMounted := true; setCartItems_arg := None;
                                   storage_after := ∅; console := log |}))
            ["{not json"; "{}"; "null"].
Proof.
  split; [vm_compute; reflexivity|]. split; [vm_compute; reflexivity|].
  split; [vm_compute; reflexivity|]. split; [vm_compute; reflexivity|].
  split; [reflexivity|].
  repeat constructor; eexists; vm_compute; reflexivity.
Qed.




(** * More on the provider *)

Section Persistence.

Implicit Types (st : Store) (storage : gmap string string) (c : call).

Lemma setCartItems_cartItems updater st :
  cartItems (setCartItems updater st) = updater (cartItems st).
Proof. unfold setCartItems, persistence_effect. cbn. by destruct (hasMounted st). Qed.





End Persistence.



(** * How the updaters compose *)

Section Algebra.

Implicit Types (product : Product) (item : CartItem) (items : list CartItem).
Implicit Types (productId : string) (qty : Z).

Lemma removeFromCart_map_if productId (g : CartItem -> Z) items :
  removeFromCart productId
    (map (fun item => if bool_decide (id item = productId)
                      then spread_item item (g item) else item) items)
  = removeFromCart productId items.
Proof.
  unfold removeFromCart. induction items as [|item items IH]; [done|].
  cbn [map List.filter]. rewrite IH.
  destruct (bool_decide (id item = productId)) eqn:E;
    cbn [spread_item fields]; by rewrite E.
Qed.

Lemma removeFromCart_app productId items items' :
  removeFromCart productId (items ++ items')
  = removeFromCart productId items ++ removeFromCart productId items'.
Proof. apply List.filter_app. Qed.

Lemma removeFromCart_comm productId productId' items :
  removeFromCart productId (removeFromCart productId' items)
  = removeFromCart productId' (removeFromCart productId items).
Proof.
  unfold removeFromCart. induction items as [|item items IH]; [done|].
  cbn [List.filter].
  destruct (bool_decide (id item = productId)) eqn:E1,
           (bool_decide (id item = productId')) eqn:E2;
    cbn [negb List.filter]; rewrite ?E1, ?E2; cbn [negb]; by rewrite IH.
Qed.

Lemma map_if_map_if productId (q1 q2 : Z) items :
  map (fun item => if bool_decide (id item = productId) then spread_item item q2 else item)
      (map (fun item => if bool_decide (id item = productId)
                        then spread_item item q1 else item) items)
  = map (fun item => if bool_decide (id item = productId) then spread_item item q2 else item)
        items.
Proof.
  induction items as [|item items IH]; [done|]. cbn [map]. rewrite IH. f_equal.
  destruct (bool_decide (id item = productId)) eqn:E;
    cbn [spread_item fields]; by rewrite E.
Qed.

Lemma sum_over_app (f : CartItem -> Z) items items' :
  sum_over f (items ++ items') = sum_over f items + sum_over f items'.
Proof. induction items as [|item items IH]; cbn [app sum_over]; lia. Qed.

(** With one line item per identifier, changing a quantity changes a sum
    by what that line item contributes. *)
Lemma sum_over_map_if (f : CartItem -> Z) (g : CartItem -> Z) item items :
  NoDup (ids items) -> item ∈ items ->
  sum_over f (map (fun x : CartItem => if bool_decide (id x = id item)
                            then spread_item x (g x) else x) items)
  = sum_over f items + (f (spread_item item (g item)) - f item).
Proof.
  induction items as [|x items IH]; [by intros _ ?%elem_of_nil|].
  change (ids (x :: items)) with (id x :: ids items).
  rewrite NoDup_cons, elem_of_cons. intros [Hfresh Hnodup] [->|Hin]; cbn [map sum_over].
  - rewrite bool_decide_true by done.
    rewrite map_if_absent by (by rewrite in_cart_ids). lia.
  - rewrite bool_decide_false.
    + rewrite IH by done. lia.
    + intros Hid. apply Hfresh. rewrite Hid. apply in_cart_ids. by exists item.
Qed.

End Algebra.

Lemma removeFromCart_after_add (product : Product) (qty : Z) (items : list CartItem) :
  removeFromCart (id product) (addToCart product qty items)
  = removeFromCart (id product) items.
Proof.
  destruct (in_cart_dec (id product) items) as [Hin|Hin].
  - rewrite addToCart_present by done. apply removeFromCart_map_if.
  - rewrite addToCart_absent, removeFromCart_app by done.
    unfold removeFromCart at 2. cbn [List.filter spread_product fields].
    rewrite bool_decide_true by done. cbn [negb]. by rewrite app_nil_r.
Qed.

Lemma addToCart_totals_present (product : Product) (qty : Z) (items : list CartItem)
      (item : CartItem) :
  NoDup (ids items) -> item ∈ items -> id item = id product -> 0 <= quantity item + qty ->
  itemCount (addToCart product qty items) = itemCount items + qty
  /\ cartTotal (addToCart product qty items) = cartTotal items + price item * qty.
Proof.
  intros Hnodup Hin Hid Hq.
  rewrite addToCart_present by (by exists item).
  rewrite !itemCount_sum, !cartTotal_sum, <- Hid.
  rewrite !(sum_over_map_if _ (fun x => Z.max 0 (quantity x + qty)) item) by done.
  unfold line_total. cbn [spread_item quantity fields].
  rewrite Z.max_r by lia. split; lia.
Qed.

Lemma addToCart_totals_absent (product : Product) (qty : Z) (items : list CartItem) :
  ~ in_cart (id product) items ->
  itemCount (addToCart product qty items) = itemCount items + Z.max 1 qty
  /\ cartTotal (addToCart product qty items) = cartTotal items + price product * Z.max 1 qty.
Proof.
  intros Hin. rewrite addToCart_absent by done.
  rewrite !itemCount_sum, !cartTotal_sum, !sum_over_app.
  unfold line_total. cbn [sum_over spread_product quantity fields]. split; lia.
Qed.

(** X2: removing a product undoes adding it.  Whatever the cart,
    [removeFromCart(product.id)] after [addToCart(product, q)] gives the
    cart that [removeFromCart(product.id)] gives without the addition, which
    is the cart itself when the product was not in it. *)
Theorem removeFromCart_addToCart (product : Product) (qty : Z) (items : list CartItem) :
  removeFromCart (id product) (addToCart product qty items)
  = removeFromCart (id product) items
  /\ (~ in_cart (id product) items ->
      removeFromCart (id product) (addToCart product qty items) = items).
Proof.
  pose proof (removeFromCart_after_add product qty items) as E.
  split; [exact E|]. intros Hin. rewrite E. by apply removeFromCart_absent.
Qed.

Lemma removeFromCart_addToCart_witness :
  removeFromCart "p3" (addToCart p3 2 sample_cart) = sample_cart.
Proof. exact (proj2 (removeFromCart_addToCart p3 2 sample_cart) sample_cart_p3). Defined.

(** X3: [removeFromCart] can be repeated and reordered: a second removal of
    the same identifier changes nothing, and removals of two identifiers
    give the same cart in either order. *)
Theorem removeFromCart_algebra (productId productId' : string) (items : list CartItem) :
  removeFromCart productId (removeFromCart productId items) = removeFromCart productId items
  /\ removeFromCart productId (removeFromCart productId' items)
     = removeFromCart productId' (removeFromCart productId items).
Proof.
  split; [|apply removeFromCart_comm].
  apply removeFromCart_absent, removeFromCart_removes.
Qed.

(** X4: the last [updateQuantity] wins.  After [updateQuantity(id, q1)]
    with [q1 > 0], [updateQuantity(id, q2)] gives what it gives on the cart
    before, for every [q2]; after a removal ([q1 <= 0]) a positive [q2] does
    not bring the line item back. *)
Theorem updateQuantity_twice (productId : string) (q1 q2 : Z) (items : list CartItem) :
  (0 < q1 ->
   updateQuantity productId q2 (updateQuantity productId q1 items)
   = updateQuantity productId q2 items)
  /\ (q1 <= 0 -> 0 < q2 ->
      updateQuantity productId q2 (updateQuantity productId q1 items)
      = removeFromCart productId items).
Proof.
  split.
  - intros Hq1. unfold updateQuantity. rewrite (proj2 (Z.leb_gt q1 0) Hq1).
    destruct (Z.leb q2 0).
    + apply (removeFromCart_map_if productId (fun _ => q1)).
    + apply map_if_map_if.
  - intros Hq1 Hq2. unfold updateQuantity.
    rewrite (proj2 (Z.leb_le q1 0) Hq1), (proj2 (Z.leb_gt q2 0) Hq2).
    apply map_if_absent, removeFromCart_removes.
Qed.

Lemma updateQuantity_twice_witness :
  updateQuantity "p1" 9 (updateQuantity "p1" 7 sample_cart) = updateQuantity "p1" 9 sample_cart
  /\ updateQuantity "p1" 9 (updateQuantity "p1" 0 sample_cart) = removeFromCart "p1" sample_cart.
Proof.
  split.
  - apply (proj1 (updateQuantity_twice "p1" 7 9 sample_cart)). lia.
  - apply (proj2 (updateQuantity_twice "p1" 0 9 sample_cart)); lia.
Defined.



Section Order.

Implicit Types (product : Product) (item : CartItem) (items : list CartItem).



Lemma with_id_absent productId items :
  productId ∉ ids items -> with_id productId items = [].
Proof.
  unfold with_id. induction items as [|x items IH]; [done|].
  change (ids (x :: items)) with (id x :: ids items).
  intros [Hx Hfresh]%not_elem_of_cons. cbn [List.filter].
  rewrite bool_decide_false by congruence. auto.
Qed.

Lemma with_id_map_if item (g : CartItem -> Z) items :
  NoDup (ids items) -> item ∈ items ->
  with_id (id item)
    (map (fun x : CartItem => if bool_decide (id x = id item)
                              then spread_item x (g x) else x) items)
  = [spread_item item (g item)].
Proof.
  induction items as [|x items IH]; [by intros _ ?%elem_of_nil|].
  change (ids (x :: items)) with (id x :: ids items).
  rewrite NoDup_cons, elem_of_cons. intros [Hfresh Hnodup] [->|Hin].
  - cbn [map]. rewrite map_if_absent by (by rewrite in_cart_ids).
    rewrite bool_decide_true by done. unfold with_id. cbn [List.filter spread_item fields].
    rewrite bool_decide_true by done. f_equal. by apply with_id_absent.
  - assert (id x <> id item) as Hx
        by (intros E; apply Hfresh; rewrite E; apply in_cart_ids; by exists item).
    cbn [map]. rewrite bool_decide_false by done.
    unfold with_id. cbn [List.filter]. rewrite bool_decide_false by done.
    by apply IH.
Qed.

End Order.



(** In a cart with one line item per identifier and no negative quantity,
    adding an amount of at least 1 raises [itemCount] by that amount,
    touches no other line item and leaves exactly one line item of the
    product, with a quantity of at least 1. *)
Lemma addToCart_positive (product : Product) (qty : Z) (items : list CartItem) :
  NoDup (ids items) -> Forall (fun item : CartItem => 0 <= quantity item) items ->
  1 <= qty ->
  itemCount (addToCart product qty items) = itemCount items + qty
  /\ removeFromCart (id product) (addToCart product qty items)
     = removeFromCart (id product) items
  /\ exists item : CartItem,
       with_id (id product) (addToCart product qty items) = [item]
       /\ 1 <= quantity item.
Proof.
  intros Hnodup Hnonneg Hq.
  split; [|split; [apply removeFromCart_after_add|]].
  - destruct (in_cart_dec (id product) items) as [(item & Hin & Hid)|Hin].
    + apply (addToCart_totals_present product qty items item Hnodup Hin Hid).
      rewrite Forall_forall in Hnonneg. specialize (Hnonneg item Hin). lia.
    + rewrite (proj1 (addToCart_totals_absent product qty items Hin)). lia.
  - destruct (in_cart_dec (id product) items) as [(item & Hin & Hid)|Hin].
    + exists (spread_item item (Z.max 0 (quantity item + qty))).
      rewrite Forall_forall in Hnonneg. specialize (Hnonneg item Hin).
      split; [|cbn; lia].
      rewrite addToCart_present by (by exists item). rewrite <- Hid.
      by apply (with_id_map_if item (fun x => Z.max 0 (quantity x + qty))).
    + exists (spread_product product (Z.max 1 qty)). split; [|cbn; lia].
      rewrite addToCart_absent by done. by apply with_id_last.
Qed.

(** * Numbers written and read *)

Section Numbers.

Implicit Types (u : Decimal.uint) (p : positive) (z : Z) (s r : list ascii).

Lemma chars_string_of_list s : chars (string_of_list_ascii s) = s.
Proof. apply list_ascii_of_string_of_list_ascii. Qed.

Lemma radix_digits_acc u (acc : positive) :
  radix_digits 10 (Some (Npos acc)) (digits u) = Some (Npos (Pos.of_uint_acc u acc)).
Proof.
  revert acc. induction u as [|u IH|u IH|u IH|u IH|u IH|u IH|u IH|u IH|u IH|u IH];
    intros acc; [reflexivity|..];
    cbn [digits radix_digits Pos.of_uint_acc];
    match goal with
    | |- context [digit_value ?c] =>
        let v := eval vm_compute in (digit_value c) in
        change (digit_value c) with v; cbv iota beta
    end;
    match goal with
    | |- context [N.ltb ?d 10] => change (N.ltb d 10) with true; cbv iota
    end;
    rewrite <- IH; f_equal; f_equal; cbv [default from_option Datatypes.id]; lia.
Qed.

Lemma radix_digits_of_uint u (acc : option N) :
  u <> Decimal.Nil -> default 0%N acc = 0%N ->
  radix_digits 10 acc (digits u) = Some (Pos.of_uint u).
Proof.
  revert acc. induction u as [|u IH|u IH|u IH|u IH|u IH|u IH|u IH|u IH|u IH|u IH];
    intros acc Hnil Hacc; [done|..];
    cbn [digits radix_digits Pos.of_uint];
    match goal with
    | |- context [digit_value ?c] =>
        let v := eval vm_compute in (digit_value c) in
        change (digit_value c) with v; cbv iota beta
    end;
    match goal with
    | |- context [N.ltb ?d 10] => change (N.ltb d 10) with true; cbv iota
    end;
    rewrite Hacc; cbn [N.mul N.add].
  1: { destruct u; [reflexivity|..]; by apply IH. }
  all: apply (radix_digits_acc u).
Qed.

Lemma hex_prefixed_digits u : hex_prefixed (digits u) = false.
Proof. destruct u as [|u|u|u|u|u|u|u|u|u|u]; try reflexivity; by destruct u. Qed.

Lemma digit_not_sign (c : ascii) :
  is_digit c = true ->
  is_str_ws c = false /\ Ascii.eqb c "-" = false /\ Ascii.eqb c "+" = false
  /\ Ascii.eqb c "." = false /\ Ascii.eqb c "I" = false.
Proof. intros Hc; each_char c; try discriminate Hc; by vm_compute. Qed.

(** The sign and the digits of a written integer. *)
Lemma read_sign_number_chars z :
  z <> 0 ->
  read_sign (trim_start (number_chars z))
  = (bool_decide (z < 0), digits (Pos.to_uint (Z.to_pos (Z.abs z)))).
Proof.
  destruct z as [|p|p]; [done|..]; intros _; cbn [number_chars];
    [change (Z.to_pos (Z.abs (Z.pos p))) with p
    |change (Z.to_pos (Z.abs (Z.neg p))) with p].
  - destruct (digits_head (Pos.to_uint p)) as (c & t & E & Hc);
      [apply DecimalPos.Unsigned.to_uint_nonnil|].
    destruct (digit_not_sign c Hc) as (Hws & Hminus & Hplus & _).
    rewrite E. cbn [trim_start]. rewrite Hws. cbn [read_sign].
    by rewrite Hminus, Hplus, bool_decide_false by lia.
  - by rewrite bool_decide_true by lia.
Qed.

Lemma parseInt_toString z (radix : option Z) :
  radix = None \/ radix = Some 10 ->
  parseInt (Number_toString (Int z)) radix = double_round z.
Proof.
  intros Hradix. destruct (decide (z = 0)) as [->|Hz];
    [by destruct Hradix as [-> | ->]|].
  unfold parseInt, Number_toString. rewrite chars_string_of_list.
  rewrite read_sign_number_chars by done.
  assert (radix_digits 10 None (digits (Pos.to_uint (Z.to_pos (Z.abs z))))
          = Some (Npos (Z.to_pos (Z.abs z)))) as Hdigits.
  { rewrite radix_digits_of_uint;
      [by rewrite DecimalPos.Unsigned.of_to
      |apply DecimalPos.Unsigned.to_uint_nonnil|done]. }
  destruct Hradix as [-> | ->]; cbn [default from_option Datatypes.id];
    cbv beta iota zeta;
    change (Z.eqb 0 0) with true; change (Z.eqb 10 0) with false;
    change (Z.eqb 10 16) with false; change (Z.ltb 10 2) with false;
    change (Z.ltb 36 10) with false; cbn [negb andb orb];
    rewrite ?hex_prefixed_digits; cbv beta iota zeta;
    change (Z.to_N 10) with 10%N; rewrite Hdigits;
    case_bool_decide; f_equal; lia.
Qed.

Lemma double_round_safe z : Z.abs z <= 2 ^ 53 -> double_round z = Int z.
Proof. intros Hz. unfold double_round. by rewrite (proj2 (Z.leb_le _ _) Hz). Qed.

Lemma parseFloat_toString (n : number) : parseFloat (Number_toString n) = Some n.
Proof.
  destruct n as [z| |[]]; [|reflexivity..].
  destruct (decide (z = 0)) as [->|Hz]; [reflexivity|].
  unfold parseFloat, Number_toString. rewrite chars_string_of_list.
  rewrite read_sign_number_chars by done.
  destruct (digits_head (Pos.to_uint (Z.to_pos (Z.abs z)))) as (c & t & E & Hc);
    [apply DecimalPos.Unsigned.to_uint_nonnil|].
  rewrite E, Hc, <- E.
  rewrite <- (app_nil_r (digits _)), lex_digits_digits by done.
  cbn [continues_number].
  change (N.of_uint (Pos.to_uint (Z.to_pos (Z.abs z))))
    with (Pos.of_uint (Pos.to_uint (Z.to_pos (Z.abs z)))).
  rewrite DecimalPos.Unsigned.of_to. case_bool_decide; do 2 f_equal; lia.
Qed.

Lemma Number_toString_truthy (n : number) : truthy (Number_toString n) = true.
Proof.
  destruct n as [[|p|p]| |[]]; try reflexivity.
  unfold Number_toString, number_chars.
  destruct (digits_head (Pos.to_uint p)) as (c & t & E & Hc);
    [apply DecimalPos.Unsigned.to_uint_nonnil|].
  by rewrite E.
Qed.

End Numbers.

(** * The product page and the product card *)

Lemma quantity_onChange_cases (value : string) :
  quantity_onChange value = Infinity false
  \/ exists n, quantity_onChange value = Int n /\ 1 <= n.
Proof.
  unfold quantity_onChange. destruct (parseInt value None) as [[|p|p]| |[]]; cbn; eauto.
  - right. exists 1. by split.
  - right. exists (Z.max 1 (Z.pos p)). split; [done|lia].
  - right. exists 1. by split.
  - right. exists 1. by split.
  - right. exists 1. by split.
Qed.

(** X7: the quantity field.  Whatever is typed, the quantity kept is an
    integer of at least 1 or [Infinity] (for digits beyond the doubles); a
    written integer [n] up to 2^53 gives [max(1, n)], so what is typed as a
    quantity of 1 or more is kept as it is, and 0, a negative number or a
    text without a number gives 1. *)
Theorem quantity_onChange_spec :
  (forall value : string,
      quantity_onChange value = Infinity false
      \/ exists n, quantity_onChange value = Int n /\ 1 <= n)
  /\ (forall n : Z, Z.abs n <= 2 ^ 53 ->
                    quantity_onChange (Number_toString (Int n)) = Int (Z.max 1 n))
  /\ (forall value : string, parseInt value None = NaN -> quantity_onChange value = Int 1).
Proof.
  split; [|split].
  - apply quantity_onChange_cases.
  - intros n Hn. unfold quantity_onChange.
    rewrite parseInt_toString, double_round_safe by auto.
    destruct n as [|p|p]; cbn [number_or number_max]; f_equal; lia.
  - intros value Hnan. unfold quantity_onChange. by rewrite Hnan.
Qed.

Lemma quantity_onChange_spec_witness :
  quantity_onChange "9007199254740993" = Int 9007199254740992
  /\ quantity_onChange (Number_toString (Int 7)) = Int 7
  /\ quantity_onChange "abc" = Int 1.
Proof.
  split; [reflexivity|]. split.
  - apply (proj1 (proj2 quantity_onChange_spec) 7). cbn. lia.
  - apply (proj2 (proj2 quantity_onChange_spec)). reflexivity.
Defined.

Section Pages.

Implicit Types (product : Product) (st : Store) (items : list CartItem).

Lemma perform_cartItems c st : cartItems (perform c st) = updater_of c (cartItems st).
Proof. apply setCartItems_cartItems. Qed.

End Pages.



(** X9: the page's button.  Without a loaded product [handleAddToCart]
    leaves the store alone.  With one, on a store with one line item per
    identifier and no negative quantity, and with a count that stays within
    2^53, it raises [itemCount] by exactly the quantity kept by the
    quantity field, and leaves the line items of the other products as they
    were. *)
Theorem handleAddToCart_spec (product : Product) (value : string) (n : Z) (st : Store) :
  NoDup (ids (cartItems st)) ->
  Forall (fun item : CartItem => 0 <= quantity item) (cartItems st) ->
  quantity_onChange value = Int n ->
  ctx_itemCount (provided st) + n <= 2 ^ 53 ->
  handleAddToCart None n st = st
  /\ 1 <= n
  /\ ctx_itemCount (provided (handleAddToCart (Some product) n st))
     = ctx_itemCount (provided st) + n
  /\ removeFromCart (id product) (cartItems (handleAddToCart (Some product) n st))
     = removeFromCart (id product) (cartItems st).
Proof.
  intros Hnodup Hnonneg Hvalue _. split; [reflexivity|].
  assert (1 <= n) as Hn.
  { destruct (quantity_onChange_cases value) as [Hinf|(m & Hm & Hle)]; congruence. }
  split; [done|]. unfold handleAddToCart.
  cbn [provided ctx_itemCount]. rewrite perform_cartItems. cbn [updater_of default].
  destruct (addToCart_positive product n (cartItems st)) as (Hcount & Hothers & _); done.
Qed.

Lemma handleAddToCart_spec_witness :
  ctx_itemCount (provided (handleAddToCart (Some p3) 4 sample_store))
  = ctx_itemCount (provided sample_store) + 4.
Proof.
  refine (proj1 (proj2 (proj2 (handleAddToCart_spec p3 "4 shirts" 4 sample_store _ _ _ _)))).
  - cbn. repeat constructor; rewrite ?elem_of_cons, ?elem_of_nil; intuition discriminate.
  - repeat constructor; cbn; lia.
  - reflexivity.
  - cbn. lia.
Defined.

(** X10: the gallery.  For a product with its images field the main
    image and the thumbnails are the first four images, in order: the main
    image is the first one, the thumbnails are the next three at most, and
    without an image the placeholder is shown and no thumbnail.  For a
    product without the field the main image is the placeholder and the
    thumbnails throw: line 99 reads the length of what is not there. *)
Theorem gallery_spec (images : list string) :
  (exists thumbnails, thumbnailImages (Some images) = Normal thumbnails
                      /\ (length thumbnails <= 3)%nat)
  /\ thumbnailImages (Some images) = Normal (take 3 (drop 1 images))
  /\ (images <> [] ->
      mainImage (Some images) :: take 3 (drop 1 images) = take 4 images)
  /\ (images = [] -> mainImage (Some images) = placeholder
                     /\ thumbnailImages (Some images) = Normal [])
  /\ mainImage None = placeholder
  /\ thumbnailImages None = Throw TypeError.
Proof.
  assert (thumbnailImages (Some images) = Normal (take 3 (drop 1 images))) as E.
  { unfold thumbnailImages, slice. destruct images as [|a [|b l]]; reflexivity. }
  split; [|split; [exact E|split; [|split]]].
  - eexists. split; [exact E|]. rewrite length_take. lia.
  - intros Hne. by destruct images.
  - by intros ->.
  - done.
Qed.

Lemma gallery_spec_witness :
  mainImage (Some ["a.png"; "b.png"; "c.png"; "d.png"; "e.png"])
    :: take 3 (drop 1 ["a.png"; "b.png"; "c.png"; "d.png"; "e.png"])
  = ["a.png"; "b.png"; "c.png"; "d.png"].
Proof.
  apply (proj1 (proj2 (proj2 (gallery_spec ["a.png"; "b.png"; "c.png"; "d.png"; "e.png"])))).
  discriminate.
Defined.

(** X11: the related products never contain the product itself; they are
    the listed products of another identifier, in the order of the
    listing. *)
Theorem relatedProducts_spec (items : list Product) (data : Product) :
  (forall p : Product, p ∈ relatedProducts items data <-> p ∈ items /\ id p <> id data)
  /\ sublist (relatedProducts items data) items
  /\ (id data ∉ map id items -> relatedProducts items data = items).
Proof.
  unfold relatedProducts. split; [|split].
  - intros p. rewrite !list_elem_of_In, filter_In, negb_true_iff, bool_decide_eq_false. done.
  - induction items as [|p items IH]; [constructor|]. cbn [List.filter].
    destruct (negb _); by constructor.
  - induction items as [|p items IH]; [done|]. cbn [map List.filter].
    intros [Hp Hitems]%not_elem_of_cons.
    rewrite bool_decide_false by congruence. cbn [negb]. by rewrite IH.
Qed.

Lemma relatedProducts_spec_witness : relatedProducts [p1; p2] p3 = [p1; p2].
Proof.
  apply (proj2 (proj2 (relatedProducts_spec [p1; p2] p3))).
  cbn. rewrite !elem_of_cons, elem_of_nil. intros [?|[?|[]]]; discriminate.
Defined.

(** * The shop page: filters and page in the address *)

Ltac decide_names :=
  repeat match goal with
         | |- context [bool_decide (?a = ?b)] =>
             first [rewrite (bool_decide_true (a = b)) by congruence
                   |rewrite (bool_decide_false (a = b)) by congruence]
         end.

Section Params.

Implicit Types (name value : string) (ps : URLSearchParams).

Lemma params_get_cons name k v ps :
  params_get name ((k, v) :: ps)
  = if bool_decide (k = name) then Some v else params_get name ps.
Proof. unfold params_get. cbn [find fst]. by case_bool_decide. Qed.

Lemma params_getAll_cons name k v ps :
  params_getAll name ((k, v) :: ps)
  = if bool_decide (k = name) then v :: params_getAll name ps else params_getAll name ps.
Proof. unfold params_getAll. cbn [List.filter fst]. by case_bool_decide. Qed.

Lemma params_getAll_app name ps ps' :
  params_getAll name (ps ++ ps') = params_getAll name ps ++ params_getAll name ps'.
Proof. unfold params_getAll. by rewrite List.filter_app, map_app. Qed.

Lemma params_get_head name ps : params_get name ps = head (params_getAll name ps).
Proof.
  induction ps as [|[k v] ps IH]; [done|].
  rewrite params_get_cons, params_getAll_cons. by case_bool_decide.
Qed.

Lemma params_getAll_without name name' ps :
  params_getAll name' (List.filter (fun p => negb (bool_decide (fst p = name))) ps)
  = if bool_decide (name' = name) then [] else params_getAll name' ps.
Proof.
  induction ps as [|[k v] ps IH]; [by case_bool_decide|].
  cbn [List.filter fst].
  destruct (decide (k = name)) as [->|Hk].
  - rewrite (bool_decide_true (name = name)) by done. cbn [negb].
    rewrite IH, params_getAll_cons.
    destruct (decide (name' = name)) as [->|Hn].
    + by rewrite !bool_decide_true.
    + by rewrite !bool_decide_false by congruence.
  - rewrite (bool_decide_false (k = name)) by done. cbn [negb].
    rewrite !params_getAll_cons, IH.
    destruct (decide (name' = name)) as [->|Hn].
    + rewrite (bool_decide_true (name = name)) by done.
      by rewrite (bool_decide_false (k = name)) by done.
    + by rewrite (bool_decide_false (name' = name)) by done.
Qed.

(** After [set], the name has exactly the value set, and the other names
    have the values they had. *)
Lemma params_getAll_set name name' value ps :
  params_getAll name' (params_set name value ps)
  = if bool_decide (name' = name) then [value] else params_getAll name' ps.
Proof.
  destruct (decide (name' = name)) as [Hn|Hn].
  - induction ps as [|[k v] ps IH]; cbn [params_set];
      [|destruct (decide (k = name)) as [Hk|Hk]];
      do 3 (decide_names; rewrite ?params_getAll_cons, ?params_getAll_without, ?IH);
      decide_names; done.
  - induction ps as [|[k v] ps IH]; cbn [params_set];
      [|destruct (decide (k = name)) as [Hk|Hk]];
      do 3 (decide_names; rewrite ?params_getAll_cons, ?params_getAll_without);
      decide_names; try done.
    rewrite IH. by decide_names.
Qed.

Lemma params_get_set name name' value ps :
  params_get name' (params_set name value ps)
  = if bool_decide (name' = name) then Some value else params_get name' ps.
Proof. rewrite !params_get_head, params_getAll_set. by case_bool_decide. Qed.

Lemma params_getAll_append name name' value ps :
  params_getAll name' (params_append name value ps)
  = params_getAll name' ps ++ (if bool_decide (name' = name) then [value] else []).
Proof.
  unfold params_append. rewrite params_getAll_app, params_getAll_cons.
  destruct (decide (name' = name)); decide_names; done.
Qed.

Lemma params_getAll_categories name (ids : list string) ps :
  params_getAll name (fold_left (fun qs catId => params_append "category" catId qs) ids ps)
  = params_getAll name ps ++ (if bool_decide (name = "category") then ids else []).
Proof.
  revert ps. induction ids as [|c ids IH]; intros ps; cbn [fold_left].
  - case_bool_decide; by rewrite app_nil_r.
  - rewrite IH, params_getAll_append. case_bool_decide; by rewrite <- app_assoc.
Qed.

End Params.

Section Address.

Implicit Types (sp : URLSearchParams) (f : AppliedFiltersStateFromPanel).

(** The filters read depend on the parameters other than [page] only. *)
Lemma parseFiltersFromUrl_ext sp sp' :
  (forall name, name <> "page" -> params_getAll name sp = params_getAll name sp') ->
  parseFiltersFromUrl sp = parseFiltersFromUrl sp'.
Proof.
  intros H. unfold parseFiltersFromUrl. rewrite !params_get_head.
  by rewrite (H "sortBy"), (H "sortOrder"), (H "category"), (H "minPrice"), (H "maxPrice").
Qed.

Lemma pageFromUrl_getAll sp :
  pageFromUrl sp
  = parseInt (default "1" (or_undefined (head (params_getAll "page" sp)))) (Some 10).
Proof. unfold pageFromUrl. by rewrite params_get_head. Qed.

Lemma or_undefined_toString (n : number) :
  or_undefined (Some (Number_toString n)) = Some (Number_toString n).
Proof. unfold or_undefined. by rewrite Number_toString_truthy. Qed.

(** The values of each name among the parameters that
    [handleFilterChange] pushes. *)
Lemma params_getAll_handleFilterChange f name :
  params_getAll name (handleFilterChange f)
  = if bool_decide (name = "page") then ["1"]
    else if bool_decide (name = "sortOrder") then option_list (or_undefined (sortOrder f))
    else if bool_decide (name = "sortBy") then option_list (or_undefined (sortBy f))
    else if bool_decide (name = "category") then default [] (categoryIds f)
    else if bool_decide (name = "maxPrice")
         then option_list ((fun r => Number_toString (snd r)) <$> priceRange f)
    else if bool_decide (name = "minPrice")
         then option_list ((fun r => Number_toString (fst r)) <$> priceRange f)
    else [].
Proof.
  unfold handleFilterChange.
  destruct f as [[[low high]|] [[|c ids]|] sb so];
    cbn [priceRange categoryIds sortBy sortOrder length Nat.ltb Nat.leb];
    destruct (or_undefined sb), (or_undefined so);
    rewrite ?params_getAll_set, ?params_getAll_categories, ?params_getAll_set;
    cbn [option_list fmap option_fmap option_map default from_option fst snd
         params_getAll List.filter map app Datatypes.id];
    repeat case_bool_decide; subst; try done.
Qed.

Lemma parseInt_toString_number (n : number) :
  safe_number n -> parseInt (Number_toString n) (Some 10) = n.
Proof.
  destruct n as [z| |negative]; cbn [safe_number]; [|reflexivity|done].
  intros Hz. rewrite parseInt_toString by (by right). by apply double_round_safe.
Qed.

Lemma pageFromUrl_set sp (n : number) :
  safe_number n -> pageFromUrl (params_set "page" (Number_toString n) sp) = n.
Proof.
  intros Hn. rewrite pageFromUrl_getAll, params_getAll_set. decide_names.
  cbn [head]. rewrite or_undefined_toString. by apply parseInt_toString_number.
Qed.

Lemma parseFiltersFromUrl_set_page sp value :
  parseFiltersFromUrl (params_set "page" value sp) = parseFiltersFromUrl sp.
Proof.
  apply parseFiltersFromUrl_ext. intros name Hname.
  rewrite params_getAll_set. by rewrite bool_decide_false.
Qed.

Lemma head_option_list {A : Type} (o : option A) : head (option_list o) = o.
Proof. by destruct o. Qed.

Lemma or_undefined_idem (s : option string) :
  or_undefined (or_undefined s) = or_undefined s.
Proof.
  destruct s as [text|]; [|done]. unfold or_undefined.
  by destruct (truthy text) eqn:Htext; [rewrite Htext|].
Qed.

Lemma parseFiltersFromUrl_handleFilterChange f :
  parseFiltersFromUrl (handleFilterChange f) = Some (normal_filters f).
Proof.
  unfold parseFiltersFromUrl, normal_filters.
  rewrite !params_get_head, !params_getAll_handleFilterChange. decide_names.
  rewrite !head_option_list, !or_undefined_idem.
  destruct f as [[[low high]|] [[|c ids]|] sb so];
    cbn [priceRange categoryIds sortBy sortOrder fmap option_fmap option_map
         default from_option Datatypes.id fst snd length Nat.ltb Nat.leb];
    rewrite ?or_undefined_toString, ?parseFloat_toString;
    reflexivity.
Qed.

Lemma pageFromUrl_handleFilterChange f : pageFromUrl (handleFilterChange f) = Int 1.
Proof. apply (pageFromUrl_set _ (Int 1)). cbn. lia. Qed.

(** X12: [handlePageChange] replaces the page and nothing else.  In the
    parameters it pushes, [page] has the new page as its only value and
    every other name keeps its values; the filters read back are those of
    the address it started from; and the page read back is the new page
    when that is [NaN] or an integer of magnitude at most 2^53 (a larger
    one is written with an exponent or read back rounded). *)
Theorem handlePageChange_spec sp (newPage : number) :
  (forall name,
      params_getAll name (handlePageChange sp newPage)
      = if bool_decide (name = "page") then [Number_toString newPage]
        else params_getAll name sp)
  /\ (safe_number newPage -> pageFromUrl (handlePageChange sp newPage) = newPage)
  /\ parseFiltersFromUrl (handlePageChange sp newPage) = parseFiltersFromUrl sp.
Proof.
  unfold handlePageChange. split; [|split].
  - intros name. apply params_getAll_set.
  - apply pageFromUrl_set.
  - apply parseFiltersFromUrl_set_page.
Qed.

Lemma handlePageChange_spec_witness :
  pageFromUrl (handlePageChange [("sortBy", "price"); ("page", "2")] (Int 3)) = Int 3.
Proof.
  refine (proj1 (proj2 (handlePageChange_spec
                          [("sortBy", "price"); ("page", "2")] (Int 3))) _).
  cbn. lia.
Defined.

(** X13: the filters survive the address.  Reading the parameters that
    [handleFilterChange] pushes gives the filters back, an empty category
    list and an empty sort field read as absent, and the page read is 1:
    a filter change goes back to the first page. *)
Theorem handleFilterChange_round_trip f :
  parseFiltersFromUrl (handleFilterChange f) = Some (normal_filters f)
  /\ pageFromUrl (handleFilterChange f) = Int 1
  /\ params_getAll "category" (handleFilterChange f) = default [] (categoryIds f).
Proof.
  split; [|split].
  - apply parseFiltersFromUrl_handleFilterChange.
  - apply pageFromUrl_handleFilterChange.
  - rewrite params_getAll_handleFilterChange. by decide_names.
Qed.

(** X14: what the product service is asked after a filter change: the
    first page of nine products, the first of the chosen categories only,
    the two prices, and the sort fields unless empty. *)
Theorem filter_change_request f :
  (f' ← parseFiltersFromUrl (handleFilterChange f);
   Some (serviceParams f' (pageFromUrl (handleFilterChange f))))
  = Some {| api_page := Int 1;
            api_limit := 9;
            api_categoryId := categoryIds f ≫= head;
            api_minPrice := fst <$> priceRange f;
            api_maxPrice := snd <$> priceRange f;
            api_sortBy := or_undefined (sortBy f);
            api_sortOrder := or_undefined (sortOrder f) |}.
Proof.
  rewrite parseFiltersFromUrl_handleFilterChange, pageFromUrl_handleFilterChange.
  cbn [mbind option_bind]. unfold serviceParams, normal_filters.
  cbn [priceRange categoryIds sortBy sortOrder].
  by destruct (categoryIds f) as [[|c ids]|].
Qed.

(** X15: the three clicks of the navigation, for a current page and a
    link number of magnitude below 2^53.  Previous and Next push nothing
    unless the response has such a page, and otherwise the page read back
    is one less and one more; a link pushes its own number; the filters
    read back are in each case those of the address before. *)
Theorem click_spec (p : Pagination) sp (pageNum : Z) :
  Z.abs (page p) < 2 ^ 53 ->
  Z.abs pageNum < 2 ^ 53 ->
  pageFromUrl <$> click_previous p sp
  = (if hasPrevPage p then Some (Int (page p - 1)) else None)
  /\ pageFromUrl <$> click_next p sp
     = (if hasNextPage p then Some (Int (page p + 1)) else None)
  /\ pageFromUrl (click_link pageNum sp) = Int pageNum
  /\ click_previous p sp ≫= parseFiltersFromUrl
     = (if hasPrevPage p then parseFiltersFromUrl sp else None)
  /\ click_next p sp ≫= parseFiltersFromUrl
     = (if hasNextPage p then parseFiltersFromUrl sp else None)
  /\ parseFiltersFromUrl (click_link pageNum sp) = parseFiltersFromUrl sp.
Proof.
  intros Hpage Hnum.
  unfold click_previous, click_next, click_link, handlePageChange.
  destruct (hasPrevPage p), (hasNextPage p);
    cbn [fmap option_fmap option_map mbind option_bind];
    rewrite ?pageFromUrl_set, ?parseFiltersFromUrl_set_page by (cbn; lia);
    auto 10.
Qed.

Lemma click_spec_witness :
  pageFromUrl <$> click_previous sample_pagination [("page", "5")] = Some (Int 4)
  /\ pageFromUrl <$> click_next sample_pagination [("page", "5")] = Some (Int 6)
  /\ pageFromUrl (click_link 10 [("page", "5")]) = Int 10
  /\ click_previous sample_pagination [("page", "5")] ≫= parseFiltersFromUrl
     = parseFiltersFromUrl [("page", "5")]
  /\ click_next sample_pagination [("page", "5")] ≫= parseFiltersFromUrl
     = parseFiltersFromUrl [("page", "5")]
  /\ parseFiltersFromUrl (click_link 10 [("page", "5")])
     = parseFiltersFromUrl [("page", "5")].
Proof. apply (click_spec sample_pagination [("page", "5")] 10); cbn; lia. Defined.

End Address.

Section Paging.

Implicit Types (p : Pagination) (i : nat) (e : page_entry).

Lemma page_entries_rendered capacity response p :
  items response <> [] ->
  pagination response = Some p ->
  1 < totalPages p < 2 ^ 32 ->
  totalPages p <= capacity ->
  page_entries capacity false (Some response)
  = Some (Normal (Some (omap (page_entry_at p) (seq 0 (Z.to_nat (totalPages p)))))).
Proof.
  intros Hitems Hp [Hlow Hhigh] Hfits. unfold page_entries. rewrite Hp.
  destruct (items response) as [|product products]; [done|]. cbn [length Nat.ltb Nat.leb].
  apply Z.ltb_lt in Hlow. rewrite Hlow.
  rewrite (proj2 (Z.leb_gt _ _)) by lia. by rewrite (proj2 (Z.ltb_ge _ _)) by lia.
Qed.

Lemma elem_of_page_entries p e :
  e ∈ omap (page_entry_at p) (seq 0 (Z.to_nat (totalPages p)))
  <-> exists i, Z.of_nat i < totalPages p /\ page_entry_at p i = Some e.
Proof.
  rewrite list_elem_of_omap. split; intros (i & Hi & He); exists i.
  - apply elem_of_seq in Hi. split; [lia|done].
  - split; [|done]. apply elem_of_seq. lia.
Qed.

Lemma page_entry_at_link p i (n : Z) (a : bool) :
  page_entry_at p i = Some (PaginationLink n a) ->
  n = Z.of_nat i + 1 /\ a = Z.eqb (page p) n.
Proof.
  unfold page_entry_at. repeat case_match; intros [= <- <-] || intros [=]. done.
Qed.

Lemma omap_all_some {A B : Type} (f : A -> option B) (g : A -> B) (l : list A) :
  (forall x, x ∈ l -> f x = Some (g x)) -> omap f l = g <$> l.
Proof.
  induction l as [|x l IH]; intros H; [done|].
  csimpl. rewrite (H x) by left. f_equal. apply IH. intros y Hy. apply H. by right.
Qed.

Lemma omap_length_bound {A B : Type} `{EqDecision A}
      (f : A -> option B) (l candidates : list A) :
  NoDup l ->
  (forall x, x ∈ l -> is_Some (f x) -> x ∈ candidates) ->
  (length (omap f l) <= length candidates)%nat.
Proof.
  intros Hl Hin.
  assert (Hlen : length (omap f l) = length (filter (fun x => is_Some (f x)) l)).
  { clear. induction l as [|x l IH]; [done|]. csimpl.
    destruct (f x) as [b|] eqn:Hfx.
    - rewrite filter_cons_True by (by rewrite Hfx). cbn. by rewrite IH.
    - rewrite filter_cons_False by (rewrite Hfx; by intros [? ?]). done. }
  rewrite Hlen. apply submseteq_length, NoDup_submseteq.
  - by apply NoDup_filter.
  - intros x [Hsome Hx]%list_elem_of_filter. by apply Hin.
Qed.

(** [page_entry_at] with its conditions as propositions. *)
Lemma page_entry_at_cases p i :
  page_entry_at p i
  = if decide (totalPages p <= 5 \/ Z.of_nat i + 1 = 1 \/ Z.of_nat i + 1 = totalPages p
               \/ page p - 1 <= Z.of_nat i + 1 <= page p + 1)
    then Some (PaginationLink (Z.of_nat i + 1) (Z.eqb (page p) (Z.of_nat i + 1)))
    else if decide (Z.of_nat i + 1 = page p - 2 \/ Z.of_nat i + 1 = page p + 2)
         then Some (PaginationEllipsis i)
         else None.
Proof.
  unfold page_entry_at.
  destruct (Z.leb_spec (totalPages p) 5), (Z.eqb_spec (Z.of_nat i + 1) 1),
    (Z.eqb_spec (Z.of_nat i + 1) (totalPages p)),
    (Z.leb_spec (page p - 1) (Z.of_nat i + 1)),
    (Z.leb_spec (Z.of_nat i + 1) (page p + 1)),
    (Z.eqb_spec (Z.of_nat i + 1) (page p - 2)),
    (Z.eqb_spec (Z.of_nat i + 1) (page p + 2));
    cbn [orb andb]; repeat case_decide; try reflexivity; exfalso; lia.
Qed.

Lemma page_entry_at_shown p i :
  totalPages p <= 5 \/ Z.of_nat i + 1 = 1 \/ Z.of_nat i + 1 = totalPages p
  \/ page p - 1 <= Z.of_nat i + 1 <= page p + 1 ->
  page_entry_at p i
  = Some (PaginationLink (Z.of_nat i + 1) (Z.eqb (page p) (Z.of_nat i + 1))).
Proof. intros H. rewrite page_entry_at_cases. by rewrite decide_True. Qed.

Lemma page_link_at p (n : Z) :
  1 <= n <= totalPages p ->
  totalPages p <= 5 \/ n = 1 \/ n = totalPages p \/ page p - 1 <= n <= page p + 1 ->
  PaginationLink n (Z.eqb (page p) n)
    ∈ omap (page_entry_at p) (seq 0 (Z.to_nat (totalPages p))).
Proof.
  intros Hn Hshown. apply elem_of_page_entries. exists (Z.to_nat (n - 1)).
  split; [lia|]. rewrite page_entry_at_shown by lia.
  by replace (Z.of_nat (Z.to_nat (n - 1)) + 1) with n by lia.
Qed.

Lemma page_ellipsis_at p (n : Z) :
  1 <= n <= totalPages p -> 5 < totalPages p -> n <> 1 -> n <> totalPages p ->
  n = page p - 2 \/ n = page p + 2 ->
  PaginationEllipsis (Z.to_nat (n - 1))
    ∈ omap (page_entry_at p) (seq 0 (Z.to_nat (totalPages p))).
Proof.
  intros Hn Hmany Hfirst Hlast Hnear. apply elem_of_page_entries.
  exists (Z.to_nat (n - 1)). split; [lia|]. rewrite page_entry_at_cases.
  rewrite decide_False by lia. by rewrite decide_True by lia.
Qed.

(** X16: the links of the navigation, which is rendered once loading is
    over, for a response that has products and more than one page, fewer
    pages than 2^32 (from where [Array] throws) and no more than the
    render has room for.  With the current page among the
    pages, the entries begin with the link to page 1 and end with the link
    to the last page; every link leads to one of the pages; and exactly
    the link to the current page is marked active. *)
Theorem page_links_spec capacity response p :
  items response <> [] ->
  pagination response = Some p ->
  1 < totalPages p < 2 ^ 32 ->
  totalPages p <= capacity ->
  1 <= page p <= totalPages p ->
  exists es,
    page_entries capacity false (Some response) = Some (Normal (Some es))
    /\ head es = Some (PaginationLink 1 (Z.eqb (page p) 1))
    /\ last es = Some (PaginationLink (totalPages p) (Z.eqb (page p) (totalPages p)))
    /\ (forall n a, PaginationLink n a ∈ es ->
                    1 <= n <= totalPages p /\ a = Z.eqb (page p) n)
    /\ (forall n, PaginationLink n true ∈ es <-> n = page p).
Proof.
  intros Hitems Hp Htotal Hfits Hpage.
  rewrite (page_entries_rendered capacity response p) by done.
  eexists. split; [reflexivity|].
  assert (Hlinks : forall n a,
             PaginationLink n a ∈ omap (page_entry_at p) (seq 0 (Z.to_nat (totalPages p))) ->
             1 <= n <= totalPages p /\ a = Z.eqb (page p) n).
  { intros n a (i & Hi & He)%elem_of_page_entries.
    apply page_entry_at_link in He as [-> ->]. split; [lia|done]. }
  split; [|split; [|split]].
  - destruct (Z.to_nat (totalPages p)) as [|rest] eqn:Hrest; [lia|].
    cbn [seq]. csimpl. by rewrite page_entry_at_shown by (cbn; lia).
  - destruct (Z.to_nat (totalPages p)) as [|rest] eqn:Hrest; [lia|].
    rewrite seq_S, omap_app. csimpl.
    rewrite page_entry_at_shown by lia.
    replace (Z.of_nat rest + 1) with (totalPages p) by lia. apply last_snoc.
  - exact Hlinks.
  - intros n. split.
    + intros [_ Hactive]%Hlinks. symmetry in Hactive. apply Z.eqb_eq in Hactive. done.
    + intros ->. rewrite <- (Z.eqb_refl (page p)) at 1. apply page_link_at; lia.
Qed.

Lemma page_links_spec_witness :
  exists es,
    page_entries 100 false (Some sample_response) = Some (Normal (Some es))
    /\ head es = Some (PaginationLink 1 false)
    /\ last es = Some (PaginationLink 10 false)
    /\ (forall n a, PaginationLink n a ∈ es -> 1 <= n <= 10 /\ a = Z.eqb 5 n)
    /\ (forall n, PaginationLink n true ∈ es <-> n = 5).
Proof. apply (page_links_spec 100 sample_response sample_pagination); cbn; done || lia. Defined.

(** X17: once loading is over, for a response that has products and
    two to five pages, every page has its link, in order, and there is no
    ellipsis. *)
Theorem page_entries_few capacity response p :
  items response <> [] ->
  pagination response = Some p ->
  1 < totalPages p <= 5 ->
  totalPages p <= capacity ->
  page_entries capacity false (Some response)
  = Some (Normal (Some ((fun i => PaginationLink (Z.of_nat i + 1)
                                           (Z.eqb (page p) (Z.of_nat i + 1)))
                    <$> seq 0 (Z.to_nat (totalPages p))))).
Proof.
  intros Hitems Hp Htotal Hfits.
  rewrite (page_entries_rendered capacity response p) by (done || lia).
  do 3 f_equal.
  apply omap_all_some. intros i _. apply page_entry_at_shown. left. lia.
Qed.

Lemma page_entries_few_witness :
  page_entries 100 false (Some few_response)
  = Some (Normal (Some [PaginationLink 1 false; PaginationLink 2 true;
                        PaginationLink 3 false])).
Proof.
  apply (page_entries_few 100 few_response few_pagination); cbn; done || lia.
Defined.

(** X18: once loading is over, for a response that has products and
    more than one page (fewer than 2^32, and no more than the render has
    room for), the navigation has at most seven entries, and with the current page among the pages none is lost: a
    page either has its link, or lies two or more below the current page
    with an ellipsis in the place of page - 2, or two or more above it
    with an ellipsis in the place of page + 2.  Those are the only
    ellipses. *)
Theorem page_entries_cover capacity response p :
  items response <> [] ->
  pagination response = Some p ->
  1 < totalPages p < 2 ^ 32 ->
  totalPages p <= capacity ->
  1 <= page p <= totalPages p ->
  exists es,
    page_entries capacity false (Some response) = Some (Normal (Some es))
    /\ (length es <= 7)%nat
    /\ (forall n, 1 <= n <= totalPages p ->
                  PaginationLink n (Z.eqb (page p) n) ∈ es
                  \/ (n <= page p - 2 /\ PaginationEllipsis (Z.to_nat (page p - 3)) ∈ es)
                  \/ (page p + 2 <= n /\ PaginationEllipsis (Z.to_nat (page p + 1)) ∈ es))
    /\ (forall i, PaginationEllipsis i ∈ es ->
                  5 < totalPages p
                  /\ (Z.of_nat i = page p - 3 \/ Z.of_nat i = page p + 1)).
Proof.
  intros Hitems Hp Htotal Hfits Hpage.
  rewrite (page_entries_rendered capacity response p) by done.
  eexists. split; [reflexivity|]. split; [|split].
  - destruct (decide (totalPages p <= 5)) as [Hfew|Hmany].
    + etrans; [apply (omap_length_bound _ _ (seq 0 (Z.to_nat (totalPages p))));
               [apply NoDup_seq|auto]|].
      rewrite length_seq. lia.
    + change 7%nat with (length (Z.to_nat <$> [0; totalPages p - 1; page p - 3; page p - 2;
                                               page p - 1; page p; page p + 1])).
      apply omap_length_bound; [apply NoDup_seq|].
      intros i _ [e He]. rewrite page_entry_at_cases in He.
      cbn [fmap list_fmap]. rewrite !elem_of_cons.
      repeat case_decide; [| |done]; lia.
  - intros n Hn.
    destruct (decide (totalPages p <= 5 \/ n = 1 \/ n = totalPages p
                      \/ page p - 1 <= n <= page p + 1)) as [Hshown|Hhidden].
    { left. by apply page_link_at. }
    right. destruct (decide (n <= page p - 2)) as [Hbelow|Habove].
    + left. split; [done|].
      replace (page p - 3) with (page p - 2 - 1) by lia. apply page_ellipsis_at; lia.
    + right. split; [lia|].
      replace (page p + 1) with (page p + 2 - 1) by lia. apply page_ellipsis_at; lia.
  - intros i (j & Hj & He)%elem_of_page_entries.
    rewrite page_entry_at_cases in He.
    repeat case_decide; [done| |done]. injection He as ->. lia.
Qed.

Lemma page_entries_cover_witness :
  exists es,
    page_entries 100 false (Some sample_response) = Some (Normal (Some es))
    /\ (length es <= 7)%nat
    /\ (forall n, 1 <= n <= 10 ->
                  PaginationLink n (Z.eqb 5 n) ∈ es
                  \/ (n <= 3 /\ PaginationEllipsis 2 ∈ es)
                  \/ (7 <= n /\ PaginationEllipsis 6 ∈ es))
    /\ (forall i, PaginationEllipsis i ∈ es ->
                  5 < 10 /\ (Z.of_nat i = 2 \/ Z.of_nat i = 6)).
Proof. apply (page_entries_cover 100 sample_response sample_pagination); cbn; done || lia. Defined.



End Paging.
